(** * Account validity handler (synapse/handlers/account_validity.py)

    A shallow embedding of [AccountValidityHandler] and the properties of
    its renewal-token lifecycle, its notification scan and its renewal
    operation.

    The handler is written against Twisted: every method decorated with
    [@defer.inlineCallbacks] returns a Deferred, every store method and
    the mail transport return a Deferred, and a caller reads the result of
    a Deferred with [yield].  The embedding keeps that distinction: a call
    produces a [Deferred] value, and only [yield] turns it into a result
    or re-raises its failure inside the calling generator. *)

From Stdlib Require Import ZArith NArith List String Ascii DecimalString Bool Lia.
Import ListNotations.
Local Open Scope string_scope.
Local Open Scope Z_scope.

Set Implicit Arguments.

(** ** Exceptions and Deferreds *)

(** The exception classes the handler can tell apart.  [StoreError] is the
    only class named in an [except] clause of the handler; [SynapseError]
    is its parent class (raised by [UserID.from_string]); every other
    exception is a [PyException] carrying its class name. *)
Inductive exn : Type :=
| StoreError (code : Z) (msg : string)
| SynapseError (code : Z) (msg : string)
| PyException (name : string).

(** [except StoreError:] *)
Definition isinstance_StoreError (e : exn) : bool :=
  match e with
  | StoreError _ _ => true
  | _ => false
  end.

(** [except Exception:] *)
Definition isinstance_Exception (e : exn) : bool := true.

(** What a synchronous call, or a generator run to its end, gives. *)
Inductive outcome (A : Type) : Type :=
| Returned (a : A)
| Raised (e : exn).
Arguments Returned {A} a.
Arguments Raised {A} e.

(** A fired Deferred: an object that holds a result or a failure.  It is a
    value like any other; holding it raises nothing. *)
Inductive Deferred (A : Type) : Type :=
| mkDeferred (result : outcome A).
Arguments mkDeferred {A} result.

Definition result {A} (d : Deferred A) : outcome A :=
  match d with mkDeferred r => r end.

Definition succeed {A} (a : A) : Deferred A := mkDeferred (Returned a).
Definition fail {A} (e : exn) : Deferred A := mkDeferred (Raised e).

(** ** Data *)

(** A row of [get_users_expiring_soon]: [user["user_id"]] and
    [user["expiration_ts_ms"]]. *)
Record expiring_user : Type := {
  user_id : string;
  expiration_ts_ms : Z
}.

(** A row of [user_get_threepids]: [threepid["medium"]] and
    [threepid["address"]]. *)
Record threepid : Type := {
  medium : string;
  address : string
}.

(** The object bound to [user] when [renew_account] calls
    [store.renew_account_for_user]: Python passes whatever the variable
    holds, a string or a Deferred. *)
Inductive pyobj : Type :=
| PyStr (s : string)
| PyDeferred (d : Deferred string).

(** [template_vars] of [send_renewal_email_to_user]. *)
Record template_vars : Type := {
  display_name : string;
  expiration_ts : Z;
  url : string
}.

(** A loaded jinja2 template, seen through its [render] method. *)
Definition Template : Type := template_vars -> string.

(** [MIMEText(text, subtype, charset)] *)
Record MIMEText : Type := {
  payload : string;
  subtype : string;
  charset : string
}.

(** [MIMEMultipart('alternative')] with the headers the handler sets and
    the parts it attaches, in order.  [as_string().encode('utf8')] is the
    serialisation of this value and is left symbolic. *)
Record MIMEMultipart : Type := {
  multipart_subtype : string;
  Subject : string;
  From : string;
  To : string;
  Date : string;
  Message_ID : string;
  parts : list MIMEText
}.

(** The arguments of one [self.sendmail(...)] call. *)
Record sendmail_args : Type := {
  smtphost : string;
  from_addr : string;
  to_addr : string;
  msg : MIMEMultipart;
  port : Z;
  requireAuthentication : bool;
  username : option string;
  password : option string;
  requireTransportSecurity : bool
}.

(** [hs.config], the options the handler reads. *)
Record Config : Type := {
  renew_by_email_enabled : bool;      (* account_validity.renew_by_email_enabled *)
  period : Z;                         (* account_validity.period *)
  email_app_name : string;
  renew_email_subject : string;
  email_notif_from : string;
  email_expiry_template_html : string;
  email_expiry_template_text : string;
  public_baseurl : string;
  email_smtp_host : string;
  email_smtp_port : Z;
  email_smtp_user : option string;
  email_smtp_pass : option string;
  require_transport_security : bool
}.

(** ** Calls on collaborators *)

(** The handler is observed through the calls it makes on its
    collaborators: the store, the mail transport, the clock and the token
    generator.  One [call] per invocation, with its arguments. *)
Inductive call : Type :=
| Call_get_users_expiring_soon
| Call_set_renewal_mail_status (user : string) (email_sent : bool)
| Call_user_get_threepids (user : string)
| Call_get_profile_displayname (localpart : string)
| Call_set_renewal_token_for_user (user : string) (renewal_token : string)
| Call_get_user_from_renewal_token (renewal_token : string)
| Call_renew_account_for_user (user : pyobj) (new_expiration_ts : Z)
| Call_sendmail (args : sendmail_args)
| Call_random_string (length : nat)
| Call_looping_call (msec : Z).

(** An invocation and the failure it ended with, if any. *)
Record event : Type := {
  ev_call : call;
  ev_failure : option exn
}.

Definition failure_of {A} (d : Deferred A) : option exn :=
  match result d with
  | Returned _ => None
  | Raised e => Some e
  end.

(** The collaborators, over a state [W] of the outside world (the
    database, the SMTP server, the random source, the wall clock).  The
    store and mail transport are not part of the handler; the handler only
    relies on each call returning a Deferred. *)
Record Collaborators (W : Type) : Type := {
  (* self.store *)
  store_get_users_expiring_soon : W -> Deferred (list expiring_user) * W;
  store_set_renewal_mail_status : string -> bool -> W -> Deferred unit * W;
  store_user_get_threepids : string -> W -> Deferred (list threepid) * W;
  store_get_profile_displayname : string -> W -> Deferred (option string) * W;
  store_set_renewal_token_for_user : string -> string -> W -> Deferred unit * W;
  store_get_user_from_renewal_token : string -> W -> Deferred string * W;
  store_renew_account_for_user : pyobj -> Z -> W -> Deferred unit * W;
  (* self.sendmail *)
  hs_sendmail : sendmail_args -> W -> Deferred unit * W;
  (* self.clock *)
  clock_time_msec : W -> Z;
  clock_looping_call : Z -> W -> W;
  (* synapse.util.stringutils, synapse.types, synapse.push.mailer *)
  stringutils_random_string : nat -> W -> string * W;
  UserID_from_string_localpart : string -> outcome string;
  mailer_load_jinja2_templates :
    Config -> string -> string -> outcome (Template * Template);
  (* email.utils and the % operator of str *)
  email_utils_parseaddr : string -> string;
  email_utils_formatdate : W -> string;
  email_utils_make_msgid : W -> string * W;
  str_mod_app : string -> string -> outcome string
}.

(** ** The generator monad *)

(** The state a running generator acts on: the outside world and the
    calls made so far, oldest first. *)
Record St (W : Type) : Type := {
  world : W;
  trace : list event
}.

(** The body of an [inlineCallbacks] generator. *)
Definition M (W A : Type) : Type := St W -> outcome A * St W.

Definition ret {W A} (a : A) : M W A := fun s => (Returned a, s).

Definition raise {W A} (e : exn) : M W A := fun s => (Raised e, s).

Definition bind {W A B} (m : M W A) (k : A -> M W B) : M W B :=
  fun s =>
    match m s with
    | (Returned a, s') => k a s'
    | (Raised e, s') => (Raised e, s')
    end.

Declare Scope gen_scope.
Delimit Scope gen_scope with gen.
Notation "x <- m ;; k" := (bind m (fun x => k))
  (at level 61, m at next level, right associativity) : gen_scope.
Notation "m ;; k" := (bind m (fun _ => k))
  (at level 61, right associativity) : gen_scope.
Local Open Scope gen_scope.

(** [yield d]: wait for the Deferred and take its result, or raise its
    failure at the [yield]. *)
Definition yield {W A} (m : M W (Deferred A)) : M W A :=
  d <- m ;; (fun s => (result d, s)).

(** [try: body except <cls>: handler] *)
Definition try_except {W A} (body : M W A) (cls : exn -> bool)
    (handler : M W A) : M W A :=
  fun s =>
    match body s with
    | (Raised e, s') => if cls e then handler s' else (Raised e, s')
    | r => r
    end.

(** A method decorated with [@defer.inlineCallbacks]: calling it runs the
    generator and hands back a Deferred holding what the generator ended
    with; the call itself raises nothing. *)
Definition inlineCallbacks {W A} (body : M W A) : M W (Deferred A) :=
  fun s => let (r, s') := body s in (Returned (mkDeferred r), s').

(** [for x in xs: body] *)
Fixpoint for_each {W A} (xs : list A) (body : A -> M W unit) : M W unit :=
  match xs with
  | [] => ret tt
  | x :: rest => body x ;; for_each rest body
  end.

(** A call on a collaborator that returns a Deferred: the call is
    recorded, the world moves on, and the Deferred is the value. *)
Definition invoke {W A} (c : call) (f : W -> Deferred A * W)
    : M W (Deferred A) :=
  fun s =>
    let (d, w') := f (world s) in
    (Returned d,
     {| world := w'; trace := (trace s ++ [{| ev_call := c; ev_failure := failure_of d |}])%list |}).

(** A synchronous call that cannot fail. *)
Definition invoke_sync {W A} (c : call) (f : W -> A * W) : M W A :=
  fun s =>
    let (a, w') := f (world s) in
    (Returned a,
     {| world := w'; trace := (trace s ++ [{| ev_call := c; ev_failure := None |}])%list |}).

(** Reading the world without a recorded call (the clock, the date). *)
Definition read {W A} (f : W -> A) : M W A :=
  fun s => (Returned (f (world s)), s).

(** A silent step on the world (drawing a message id). *)
Definition step {W A} (f : W -> A * W) : M W A :=
  fun s =>
    let (a, w') := f (world s) in
    (Returned a, {| world := w'; trace := trace s |}).

(** A synchronous call that may raise. *)
Definition lift {W A} (r : outcome A) : M W A := fun s => (r, s).

(** ** The handler *)

(** The attributes [__init__] sets when renewal by email is enabled. *)
Record email_attrs : Type := {
  _subject : string;
  _from_string : string;
  _raw_from : string;
  _template_html : Template;
  _template_text : Template
}.

(** [self]: the configuration and, when renewal by email is enabled, the
    email attributes. *)
Record AccountValidityHandler : Type := {
  self_config : Config;
  self_email : option email_attrs
}.

Section Handler.

Variable W : Type.
Variable hs : Collaborators W.
Variable config : Config.

(** The [try]/[except Exception] block of [__init__]: both strings are
    assigned in the [try] body, and both are assigned again in the
    handler. *)
Definition init_subject_and_from : M W (string * string) :=
  try_except
    (let app_name := email_app_name config in
     subject <- lift (str_mod_app hs (renew_email_subject config) app_name) ;;
     from_string <- lift (str_mod_app hs (email_notif_from config) app_name) ;;
     ret (subject, from_string))
    isinstance_Exception
    (ret (renew_email_subject config, email_notif_from config)).

(** [AccountValidityHandler.__init__] *)
Definition __init__ : M W AccountValidityHandler :=
  if renew_by_email_enabled config then
    sf <- init_subject_and_from ;;
    let raw_from := email_utils_parseaddr hs (snd sf) in
    templates <- lift (mailer_load_jinja2_templates hs config
                         (email_expiry_template_html config)
                         (email_expiry_template_text config)) ;;
    invoke_sync (Call_looping_call (30 * 60 * 1000))
      (fun w => (tt, clock_looping_call hs (30 * 60 * 1000) w)) ;;
    ret {| self_config := config;
           self_email := Some {| _subject := fst sf;
                                 _from_string := snd sf;
                                 _raw_from := raw_from;
                                 _template_html := fst templates;
                                 _template_text := snd templates |} |}
  else
    ret {| self_config := config; self_email := None |}.

Variable self : email_attrs.

(** [_get_email_addresses_for_user]: the loop appends the address of each
    threepid whose medium is "email". *)
Definition collect_email_addresses (threepids : list threepid) : list string :=
  fold_left
    (fun addresses tp =>
       if String.eqb (medium tp) "email" then (addresses ++ [address tp])%list
       else addresses)
    threepids [].

Definition _get_email_addresses_for_user (user : string)
    : M W (Deferred (list string)) :=
  inlineCallbacks
    (threepids <- yield (invoke (Call_user_get_threepids user)
                           (store_user_get_threepids hs user)) ;;
     ret (collect_email_addresses threepids)).

(** The body of the [try] inside the [while] loop of
    [_get_renewal_token]. *)
Definition try_new_token (user : string) : M W string :=
  renewal_token <- invoke_sync (Call_random_string 32)
                     (stringutils_random_string hs 32) ;;
  yield (invoke (Call_set_renewal_token_for_user user renewal_token)
           (store_set_renewal_token_for_user hs user renewal_token)) ;;
  ret renewal_token.

Definition exhausted : exn :=
  StoreError 500 "Couldn't generate a unique string as refresh string.".

(** Raised only when the iteration budget of [while_attempts] runs out
    while the loop test still holds; [while_attempts_budget] shows that
    this does not happen from [_get_renewal_token]. *)
Definition out_of_budget : exn := PyException "RecursionError".

(** [while attempts < 5: try: ... except StoreError: attempts += 1],
    followed by the [raise].  [attempts] only grows, so the loop runs at
    most [5 - attempts] more times; [budget] is that bound. *)
Fixpoint while_attempts (budget : nat) (user : string) (attempts : Z)
    : M W string :=
  if attempts <? 5 then
    match budget with
    | O => raise out_of_budget
    | S budget' =>
        try_except (try_new_token user) isinstance_StoreError
          (while_attempts budget' user (attempts + 1))
    end
  else raise exhausted.

Definition _get_renewal_token (user : string) : M W (Deferred string) :=
  inlineCallbacks (while_attempts 5 user 0).

(** The display-name block of [send_renewal_email_to_user]. *)
Definition lookup_display_name (user : string) : M W string :=
  try_except
    (localpart <- lift (UserID_from_string_localpart hs user) ;;
     user_display_name <- yield (invoke (Call_get_profile_displayname localpart)
                                   (store_get_profile_displayname hs localpart)) ;;
     match user_display_name with
     | None => ret user
     | Some name => ret name
     end)
    isinstance_StoreError
    (ret user).

Definition renewal_url (renewal_token : string) : string :=
  public_baseurl config
    ++ "_matrix/client/unstable/account_validity/renew?token="
    ++ renewal_token.

(** The message built for one address inside the [for] loop. *)
Definition build_message (text_part html_part : MIMEText) (addr date msgid : string)
    : MIMEMultipart :=
  {| multipart_subtype := "alternative";
     Subject := _subject self;
     From := _from_string self;
     To := addr;
     Date := date;
     Message_ID := msgid;
     parts := [text_part; html_part] |}.

(** The body of [for address in addresses:]. *)
Definition send_to_address (text_part html_part : MIMEText) (addr : string)
    : M W unit :=
  let raw_to := email_utils_parseaddr hs addr in
  date <- read (email_utils_formatdate hs) ;;
  msgid <- step (email_utils_make_msgid hs) ;;
  let multipart_msg := build_message text_part html_part addr date msgid in
  let args :=
    {| smtphost := email_smtp_host config;
       from_addr := _raw_from self;
       to_addr := raw_to;
       msg := multipart_msg;
       port := email_smtp_port config;
       requireAuthentication :=
         match email_smtp_user config with Some _ => true | None => false end;
       username := email_smtp_user config;
       password := email_smtp_pass config;
       requireTransportSecurity := require_transport_security config |} in
  yield (invoke (Call_sendmail args) (hs_sendmail hs args)).

(** Lines 120-141: the dispatch loop. *)
Definition dispatch (text_part html_part : MIMEText) (addresses : list string)
    : M W unit :=
  for_each addresses (send_to_address text_part html_part).

(** [send_renewal_email_to_user] *)
Definition send_renewal_email_to_user (user : string) (expiration : Z)
    : M W (Deferred unit) :=
  inlineCallbacks
    (addresses <- yield (_get_email_addresses_for_user user) ;;
     user_display_name <- lookup_display_name user ;;
     renewal_token <- yield (_get_renewal_token user) ;;
     let vars :=
       {| display_name := user_display_name;
          expiration_ts := expiration;
          url := renewal_url renewal_token |} in
     let html_part :=
       {| payload := _template_html self vars; subtype := "html"; charset := "utf8" |} in
     let text_part :=
       {| payload := _template_text self vars; subtype := "plain"; charset := "utf8" |} in
     dispatch text_part html_part addresses).

(** The body of [for user in expiring_users:]. *)
Definition scan_candidate (user : expiring_user) : M W unit :=
  yield (send_renewal_email_to_user (user_id user) (expiration_ts_ms user)) ;;
  yield (invoke (Call_set_renewal_mail_status (user_id user) true)
           (store_set_renewal_mail_status hs (user_id user) true)).

(** [send_renewal_emails] *)
Definition send_renewal_emails : M W (Deferred unit) :=
  inlineCallbacks
    (expiring_users <- yield (invoke Call_get_users_expiring_soon
                                (store_get_users_expiring_soon hs)) ;;
     for_each expiring_users scan_candidate).

(** [renew_account].  Line 168 binds [user] to what the store call
    returns, without [yield]; line 172 yields. *)
Definition renew_account (renewal_token : string) : M W (Deferred unit) :=
  inlineCallbacks
    (user <- invoke (Call_get_user_from_renewal_token renewal_token)
               (store_get_user_from_renewal_token hs renewal_token) ;;
     now <- read (clock_time_msec hs) ;;
     let new_expiration_date := now + period config in
     yield (invoke (Call_renew_account_for_user (PyDeferred user) new_expiration_date)
              (store_renew_account_for_user hs (PyDeferred user) new_expiration_date))).

End Handler.

(** ** An in-memory deployment

    A concrete world for running the handler: the account store of the
    specification (section 6, AccountStore gateway), an SMTP server that
    can be unreachable for chosen recipients, a scripted random source
    and a fixed clock. *)

Module InMemory.

(** A row of the account-validity table. *)
Record account : Type := {
  acc_user_id : string;
  acc_expiration_ts_ms : Z;
  acc_email_sent : bool;                  (* the [notified] flag *)
  acc_renewal_token : option string
}.

Record World : Type := {
  accounts : list account;
  threepids : list (string * threepid);   (* user id, threepid *)
  profiles : list (string * option string); (* localpart, displayname *)
  profile_backend_failure : option exn;   (* set when profile reads fail *)
  smtp_unreachable_for : list string;     (* recipients the transport fails for *)
  outbox : list sendmail_args;            (* messages accepted by the transport *)
  now_msec : Z;
  renew_at : Z;                           (* look-ahead window *)
  random_source : list string;            (* what random_string returns next *)
  msgid_counter : nat;
  looping_calls : list Z
}.

Definition set_accounts (w : World) (accs : list account) : World :=
  {| accounts := accs;
     threepids := threepids w;
     profiles := profiles w;
     profile_backend_failure := profile_backend_failure w;
     smtp_unreachable_for := smtp_unreachable_for w;
     outbox := outbox w;
     now_msec := now_msec w;
     renew_at := renew_at w;
     random_source := random_source w;
     msgid_counter := msgid_counter w;
     looping_calls := looping_calls w |}.

Definition not_found : exn := StoreError 404 "No row found".
Definition conflict : exn := StoreError 409 "Renewal token already in use".

(** Modelled from the spec: [findExpiringUnnotified], the accounts whose
    [expiration_ts] falls within the look-ahead window and whose
    [notified] flag is false. *)
Definition get_users_expiring_soon (w : World)
    : Deferred (list expiring_user) * World :=
  (succeed
     (map (fun a => {| user_id := acc_user_id a;
                       expiration_ts_ms := acc_expiration_ts_ms a |})
        (filter (fun a => negb (acc_email_sent a)
                          && (acc_expiration_ts_ms a - now_msec w <=? renew_at w))
           (accounts w))),
   w).

(** Modelled from the spec: [setNotified(accountId, bool)]. *)
Definition set_renewal_mail_status (user : string) (email_sent : bool) (w : World)
    : Deferred unit * World :=
  (succeed tt,
   set_accounts w
     (map (fun a =>
             if String.eqb (acc_user_id a) user then
               {| acc_user_id := acc_user_id a;
                  acc_expiration_ts_ms := acc_expiration_ts_ms a;
                  acc_email_sent := email_sent;
                  acc_renewal_token := acc_renewal_token a |}
             else a)
        (accounts w))).

(** Modelled from the spec: [listEmailAddresses(accountId)], as the
    threepid rows the handler filters by medium. *)
Definition user_get_threepids (user : string) (w : World)
    : Deferred (list threepid) * World :=
  (succeed (map snd (filter (fun p => String.eqb (fst p) user) (threepids w))), w).

Fixpoint assoc {A} (k : string) (l : list (string * A)) : option A :=
  match l with
  | [] => None
  | (k', v) :: rest => if String.eqb k' k then Some v else assoc k rest
  end.

(** Modelled from the spec: [getDisplayName(accountId) -> name | NotFound];
    a profile row may hold no name. *)
Definition get_profile_displayname (localpart : string) (w : World)
    : Deferred (option string) * World :=
  match profile_backend_failure w with
  | Some e => (fail e, w)
  | None =>
      match assoc localpart (profiles w) with
      | Some name => (succeed name, w)
      | None => (fail not_found, w)
      end
  end.

Definition holds_token (tok : string) (a : account) : bool :=
  match acc_renewal_token a with
  | Some t => String.eqb t tok
  | None => false
  end.

(** Modelled from the spec: [createToken(accountId, token) -> ok | Conflict];
    the store rejects the write if the token already exists for any
    account. *)
Definition set_renewal_token_for_user (user tok : string) (w : World)
    : Deferred unit * World :=
  if existsb (holds_token tok) (accounts w) then (fail conflict, w)
  else
    (succeed tt,
     set_accounts w
       (map (fun a =>
               if String.eqb (acc_user_id a) user then
                 {| acc_user_id := acc_user_id a;
                    acc_expiration_ts_ms := acc_expiration_ts_ms a;
                    acc_email_sent := acc_email_sent a;
                    acc_renewal_token := Some tok |}
               else a)
          (accounts w))).

(** Modelled from the spec: [getExpirationByToken(token) -> accountId |
    NotFound]. *)
Definition get_user_from_renewal_token (tok : string) (w : World)
    : Deferred string * World :=
  match find (holds_token tok) (accounts w) with
  | Some a => (succeed (acc_user_id a), w)
  | None => (fail not_found, w)
  end.

(** The rows a key selects: a string selects the rows of that user; an
    object that is not a string equals no stored user id. *)
Definition key_matches (key : pyobj) (a : account) : bool :=
  match key with
  | PyStr u => String.eqb (acc_user_id a) u
  | PyDeferred _ => false
  end.

(** Modelled from the spec: [setExpiration(accountId, ts)], which also
    clears the [notified] flag for the next cycle. *)
Definition renew_account_for_user (key : pyobj) (ts : Z) (w : World)
    : Deferred unit * World :=
  (succeed tt,
   set_accounts w
     (map (fun a =>
             if key_matches key a then
               {| acc_user_id := acc_user_id a;
                  acc_expiration_ts_ms := ts;
                  acc_email_sent := false;
                  acc_renewal_token := acc_renewal_token a |}
             else a)
        (accounts w))).

(** Modelled from the spec: the mail transport returns success or failure
    per send. *)
Definition sendmail (args : sendmail_args) (w : World) : Deferred unit * World :=
  if existsb (String.eqb (to_addr args)) (smtp_unreachable_for w) then
    (fail (PyException "ConnectError"), w)
  else
    (succeed tt,
     {| accounts := accounts w;
        threepids := threepids w;
        profiles := profiles w;
        profile_backend_failure := profile_backend_failure w;
        smtp_unreachable_for := smtp_unreachable_for w;
        outbox := (outbox w ++ [args])%list;
        now_msec := now_msec w;
        renew_at := renew_at w;
        random_source := random_source w;
        msgid_counter := msgid_counter w;
        looping_calls := looping_calls w |}).

Definition looping_call (msec : Z) (w : World) : World :=
  {| accounts := accounts w;
     threepids := threepids w;
     profiles := profiles w;
     profile_backend_failure := profile_backend_failure w;
     smtp_unreachable_for := smtp_unreachable_for w;
     outbox := outbox w;
     now_msec := now_msec w;
     renew_at := renew_at w;
     random_source := random_source w;
     msgid_counter := msgid_counter w;
     looping_calls := (looping_calls w ++ [msec])%list |}.

(** The scripted random source: the next string of the script, which then
    moves to the back. *)
Definition random_string (length : nat) (w : World) : string * World :=
  match random_source w with
  | [] => ("", w)
  | tok :: rest =>
      (tok,
       {| accounts := accounts w;
          threepids := threepids w;
          profiles := profiles w;
          profile_backend_failure := profile_backend_failure w;
          smtp_unreachable_for := smtp_unreachable_for w;
          outbox := outbox w;
          now_msec := now_msec w;
          renew_at := renew_at w;
          random_source := (rest ++ [tok])%list;
          msgid_counter := msgid_counter w;
          looping_calls := looping_calls w |})
  end.

Definition make_msgid (w : World) : string * World :=
  ("<" ++ NilZero.string_of_uint (Nat.to_uint (msgid_counter w)) ++ "@synapse>",
   {| accounts := accounts w;
      threepids := threepids w;
      profiles := profiles w;
      profile_backend_failure := profile_backend_failure w;
      smtp_unreachable_for := smtp_unreachable_for w;
      outbox := outbox w;
      now_msec := now_msec w;
      renew_at := renew_at w;
      random_source := random_source w;
      msgid_counter := S (msgid_counter w);
      looping_calls := looping_calls w |}).

Definition formatdate (w : World) : string :=
  NilZero.string_of_int (Z.to_int (now_msec w)).

(** [UserID.from_string(s).localpart]: the text between the leading "@"
    and the first ":". *)
Fixpoint before_colon (s : string) : option string :=
  match s with
  | EmptyString => None
  | String c rest =>
      if Ascii.eqb c ":" then Some EmptyString
      else match before_colon rest with
           | Some l => Some (String c l)
           | None => None
           end
  end.

Definition from_string_localpart (s : string) : outcome string :=
  match s with
  | String c rest =>
      if Ascii.eqb c "@" then
        match before_colon rest with
        | Some l => Returned l
        | None => Raised (SynapseError 400 "Expected UserID of the form '@localname:domain'")
        end
      else Raised (SynapseError 400 "Expected UserID string to start with '@'")
  | EmptyString => Raised (SynapseError 400 "Expected UserID string to start with '@'")
  end.

(** [template % {"app": app_name}], following CPython 3's
    [PyUnicode_Format] with a mapping as right operand.  A string stands
    for the str of its characters' code points, all below 256.  A
    conversion with a key takes the value of that key, one without a key
    takes the mapping itself, and a second fetch without a new key finds
    no argument left.  Results are taken to fit in memory, whatever the
    width. *)
Inductive fmt_args : Type :=
| ArgsDict     (* the mapping itself *)
| ArgsValue.   (* the value looked up for the last key *)

Record conv_spec : Type := {
  ljust : bool;
  width : N;
  prec : option N
}.

Definition no_spec : conv_spec := {| ljust := false; width := 0; prec := None |}.

Inductive stage : Type :=
| Lit
| Start
| InKey (depth : nat) (key : string)
| Flags (sp : conv_spec)
| Width (sp : conv_spec)
| AfterDot (sp : conv_spec)
| Prec (sp : conv_spec)
| Conv (sp : conv_spec).

Inductive step_result : Type :=
| Next (text : string) (st : stage) (args : fmt_args) (avail : bool)
| Err (e : exn).

Definition KeyError : exn := PyException "KeyError".
Definition TypeError : exn := PyException "TypeError".
Definition ValueError : exn := PyException "ValueError".

Definition quote1 : ascii := "'"%char.
Definition quote2 : ascii := ascii_of_nat 34.
Definition backslash : ascii := ascii_of_nat 92.

Definition hex_digit (n : nat) : ascii :=
  nth n (list_ascii_of_string "0123456789abcdef") "0"%char.

Definition escape_x (c : ascii) : string :=
  let n := nat_of_ascii c in
  String backslash (String "x" (String (hex_digit (n / 16))
                                  (String (hex_digit (n mod 16)) EmptyString))).

Fixpoint contains (c : ascii) (s : string) : bool :=
  match s with
  | EmptyString => false
  | String d rest => Ascii.eqb c d || contains c rest
  end.

(** [chr(n).isprintable()] for n below 256. *)
Definition isprintable (n : nat) : bool :=
  ((32 <=? n) && (n <? 127) || (161 <=? n) && negb (n =? 173))%nat.

Definition repr_char (only_ascii : bool) (quote c : ascii) : string :=
  let n := nat_of_ascii c in
  if Ascii.eqb c quote || Ascii.eqb c backslash then
    String backslash (String c EmptyString)
  else if (n =? 9)%nat then String backslash "t"
  else if (n =? 10)%nat then String backslash "n"
  else if (n =? 13)%nat then String backslash "r"
  else if (n <? 127)%nat && isprintable n then String c EmptyString
  else if (127 <? n)%nat && negb only_ascii && isprintable n then String c EmptyString
  else escape_x c.

Fixpoint repr_body (only_ascii : bool) (quote : ascii) (s : string) : string :=
  match s with
  | EmptyString => EmptyString
  | String c rest => repr_char only_ascii quote c ++ repr_body only_ascii quote rest
  end.

(** [repr(s)] when [only_ascii] is false, [ascii(s)] when it is true. *)
Definition py_repr (only_ascii : bool) (s : string) : string :=
  let quote := if contains quote1 s && negb (contains quote2 s) then quote2 else quote1 in
  String quote (repr_body only_ascii quote s ++ String quote EmptyString).

(** [str], [repr] and [ascii] of [{"app": app}]. *)
Definition py_dict (only_ascii : bool) (app : string) : string :=
  "{'app': " ++ py_repr only_ascii app ++ "}".

Definition digit_of (c : ascii) : option N :=
  let n := N_of_ascii c in
  if ((48 <=? n) && (n <=? 57))%N then Some (n - 48)%N else None.

Definition PY_SSIZE_T_MAX : N := 9223372036854775807.
Definition INT_MAX : N := 2147483647.

Fixpoint spaces (n : nat) : string :=
  match n with
  | O => EmptyString
  | S m => String " " (spaces m)
  end.

(** Truncation to the precision, for the conversions s, r and a. *)
Definition truncate (sp : conv_spec) (s : string) : string :=
  match prec sp with
  | Some p => if (p <? N.of_nat (String.length s))%N then substring 0 (N.to_nat p) s else s
  | None => s
  end.

(** Padding with spaces to the width, on the right with the [-] flag. *)
Definition pad (sp : conv_spec) (s : string) : string :=
  let fill := spaces (N.to_nat (width sp - N.of_nat (String.length s))) in
  if ljust sp then s ++ fill else fill ++ s.

(** The conversion character: the argument is fetched first, then
    converted. *)
Definition conv_char (sp : conv_spec) (args : fmt_args) (avail : bool)
    (app : string) (c : ascii) : step_result :=
  if negb avail then Err TypeError
  else
    let done text := Next text Lit args false in
    let n := nat_of_ascii c in
    if Ascii.eqb c "s" then
      done (pad sp (truncate sp
                      match args with
                      | ArgsDict => py_dict false app
                      | ArgsValue => app
                      end))
    else if Ascii.eqb c "r" then
      done (pad sp (truncate sp
                      match args with
                      | ArgsDict => py_dict false app
                      | ArgsValue => py_repr false app
                      end))
    else if Ascii.eqb c "a" then
      done (pad sp (truncate sp
                      match args with
                      | ArgsDict => py_dict true app
                      | ArgsValue => py_repr true app
                      end))
    else if contains c "diouxXeEfFgG" then Err TypeError
    else if Ascii.eqb c "c" then
      match args with
      | ArgsValue =>
          if (String.length app =? 1)%nat then done (pad sp app) else Err TypeError
      | ArgsDict => Err TypeError
      end
    else Err ValueError.

Definition len_char (sp : conv_spec) (args : fmt_args) (avail : bool)
    (app : string) (c : ascii) : step_result :=
  if contains c "hlL" then Next EmptyString (Conv sp) args avail
  else conv_char sp args avail app c.

Definition dot_char (sp : conv_spec) (args : fmt_args) (avail : bool)
    (app : string) (c : ascii) : step_result :=
  if Ascii.eqb c "." then
    Next EmptyString
      (AfterDot {| ljust := ljust sp; width := width sp; prec := Some 0%N |})
      args avail
  else len_char sp args avail app c.

Definition width_char (sp : conv_spec) (args : fmt_args) (avail : bool)
    (app : string) (c : ascii) : step_result :=
  if Ascii.eqb c "*" then Err TypeError
  else
    match digit_of c with
    | Some d =>
        Next EmptyString
          (Width {| ljust := ljust sp; width := d; prec := prec sp |}) args avail
    | None => dot_char sp args avail app c
    end.

Definition flag_char (sp : conv_spec) (args : fmt_args) (avail : bool)
    (app : string) (c : ascii) : step_result :=
  if Ascii.eqb c "-" then
    Next EmptyString
      (Flags {| ljust := true; width := width sp; prec := prec sp |}) args avail
  else if contains c "+ #0" then Next EmptyString (Flags sp) args avail
  else width_char sp args avail app c.

(** What one character of the template does in a stage. *)
Definition next (st : stage) (args : fmt_args) (avail : bool) (app : string)
    (c : ascii) : step_result :=
  match st with
  | Lit =>
      if Ascii.eqb c "%" then Next EmptyString Start args avail
      else Next (String c EmptyString) Lit args avail
  | Start =>
      if Ascii.eqb c "%" then Next "%" Lit args avail
      else if Ascii.eqb c "(" then Next EmptyString (InKey 1 EmptyString) args avail
      else flag_char no_spec args avail app c
  | InKey depth key =>
      if Ascii.eqb c ")" then
        match depth with
        | S (S d) => Next EmptyString (InKey (S d) (key ++ String c EmptyString)) args avail
        | _ =>
            if String.eqb key "app" then Next EmptyString (Flags no_spec) ArgsValue true
            else Err KeyError
        end
      else if Ascii.eqb c "(" then
        Next EmptyString (InKey (S depth) (key ++ String c EmptyString)) args avail
      else Next EmptyString (InKey depth (key ++ String c EmptyString)) args avail
  | Flags sp => flag_char sp args avail app c
  | Width sp =>
      match digit_of c with
      | Some d =>
          if ((PY_SSIZE_T_MAX - d) / 10 <? width sp)%N then Err ValueError
          else Next EmptyString
                 (Width {| ljust := ljust sp; width := (width sp * 10 + d)%N;
                           prec := prec sp |}) args avail
      | None => dot_char sp args avail app c
      end
  | AfterDot sp =>
      if Ascii.eqb c "*" then Err TypeError
      else
        match digit_of c with
        | Some d =>
            Next EmptyString
              (Prec {| ljust := ljust sp; width := width sp; prec := Some d |})
              args avail
        | None => len_char sp args avail app c
        end
  | Prec sp =>
      match digit_of c, prec sp with
      | Some d, Some p =>
          if ((INT_MAX - d) / 10 <? p)%N then Err ValueError
          else Next EmptyString
                 (Prec {| ljust := ljust sp; width := width sp;
                          prec := Some (p * 10 + d)%N |}) args avail
      | _, _ => len_char sp args avail app c
      end
  | Conv sp => conv_char sp args avail app c
  end.

Fixpoint format_from (st : stage) (args : fmt_args) (avail : bool) (app : string)
    (s : string) : outcome string :=
  match s with
  | EmptyString =>
      match st with
      | Lit => Returned EmptyString
      | _ => Raised ValueError
      end
  | String c rest =>
      match next st args avail app c with
      | Next text st' args' avail' =>
          match format_from st' args' avail' app rest with
          | Returned out => Returned (text ++ out)
          | Raised e => Raised e
          end
      | Err e => Raised e
      end
  end.

Definition mod_app (template app_name : string) : outcome string :=
  format_from Lit ArgsDict true app_name template.

(** [email.utils.parseaddr(s)[1]] for the two shapes used here: a bare
    address, or "Name <address>". *)
Fixpoint inside_angle (s : string) : option string :=
  match s with
  | EmptyString => None
  | String c rest =>
      if Ascii.eqb c "<" then
        (fix upto (t : string) : option string :=
           match t with
           | EmptyString => None
           | String d more =>
               if Ascii.eqb d ">" then Some EmptyString
               else match upto more with
                    | Some a => Some (String d a)
                    | None => None
                    end
           end) rest
      else inside_angle rest
  end.

Definition parseaddr (s : string) : string :=
  match inside_angle s with
  | Some a => a
  | None => s
  end.

(** Two small templates over the variables the handler passes. *)
Definition template_html : Template :=
  fun v => "<p>Hello " ++ display_name v ++ ", renew at <a href='" ++ url v ++ "'>this link</a></p>".

Definition template_text : Template :=
  fun v => "Hello " ++ display_name v ++ ", renew at " ++ url v.

Definition load_jinja2_templates (c : Config) (html_name text_name : string)
    : outcome (Template * Template) :=
  Returned (template_html, template_text).

(** The homeserver wired to the in-memory world. *)
Definition hs : Collaborators World :=
  {| store_get_users_expiring_soon := get_users_expiring_soon;
     store_set_renewal_mail_status := set_renewal_mail_status;
     store_user_get_threepids := user_get_threepids;
     store_get_profile_displayname := get_profile_displayname;
     store_set_renewal_token_for_user := set_renewal_token_for_user;
     store_get_user_from_renewal_token := get_user_from_renewal_token;
     store_renew_account_for_user := renew_account_for_user;
     hs_sendmail := sendmail;
     clock_time_msec := now_msec;
     clock_looping_call := looping_call;
     stringutils_random_string := random_string;
     UserID_from_string_localpart := from_string_localpart;
     mailer_load_jinja2_templates := load_jinja2_templates;
     email_utils_parseaddr := parseaddr;
     email_utils_formatdate := formatdate;
     email_utils_make_msgid := make_msgid;
     str_mod_app := mod_app |}.

(** A test double of the store that reports a collision on every token
    write; everything else is the in-memory deployment. *)
Definition always_conflict (user tok : string) (w : World) : Deferred unit * World :=
  (fail conflict, w).

Definition hs_always_conflict : Collaborators World :=
  {| store_get_users_expiring_soon := get_users_expiring_soon;
     store_set_renewal_mail_status := set_renewal_mail_status;
     store_user_get_threepids := user_get_threepids;
     store_get_profile_displayname := get_profile_displayname;
     store_set_renewal_token_for_user := always_conflict;
     store_get_user_from_renewal_token := get_user_from_renewal_token;
     store_renew_account_for_user := renew_account_for_user;
     hs_sendmail := sendmail;
     clock_time_msec := now_msec;
     clock_looping_call := looping_call;
     stringutils_random_string := random_string;
     UserID_from_string_localpart := from_string_localpart;
     mailer_load_jinja2_templates := load_jinja2_templates;
     email_utils_parseaddr := parseaddr;
     email_utils_formatdate := formatdate;
     email_utils_make_msgid := make_msgid;
     str_mod_app := mod_app |}.

Definition config : Config :=
  {| renew_by_email_enabled := true;
     period := 500;
     email_app_name := "Matrix";
     renew_email_subject := "Renew your %(app)s account";
     email_notif_from := "%(app)s <noreply@example.com>";
     email_expiry_template_html := "notice_expiry.html";
     email_expiry_template_text := "notice_expiry.txt";
     public_baseurl := "https://hs.example.com/";
     email_smtp_host := "localhost";
     email_smtp_port := 25;
     email_smtp_user := None;
     email_smtp_pass := None;
     require_transport_security := false |}.

(** The attributes [__init__] computes for [config]. *)
Definition self : email_attrs :=
  {| _subject := "Renew your Matrix account";
     _from_string := "Matrix <noreply@example.com>";
     _raw_from := "noreply@example.com";
     _template_html := template_html;
     _template_text := template_text |}.

Definition start (w : World) : St World := {| world := w; trace := [] |}.

(** Two accounts near expiry, not yet notified.  [@u1:hs] has two email
    addresses and a phone number, [@u2:hs] one email address. *)
Definition two_accounts : World :=
  {| accounts :=
       [ {| acc_user_id := "@u1:hs"; acc_expiration_ts_ms := 1040;
            acc_email_sent := false; acc_renewal_token := Some "tok1" |};
         {| acc_user_id := "@u2:hs"; acc_expiration_ts_ms := 1060;
            acc_email_sent := false; acc_renewal_token := None |} ];
     threepids :=
       [ ("@u1:hs", {| medium := "email"; address := "a@example.com" |});
         ("@u1:hs", {| medium := "msisdn"; address := "447700900000" |});
         ("@u1:hs", {| medium := "email"; address := "b@example.com" |});
         ("@u2:hs", {| medium := "email"; address := "c@example.com" |}) ];
     profiles := [ ("u1", Some "Alice"); ("u2", None) ];
     profile_backend_failure := None;
     smtp_unreachable_for := [];
     outbox := [];
     now_msec := 1000;
     renew_at := 100;
     random_source := ["fresh1"; "fresh2"; "fresh3"];
     msgid_counter := 0;
     looping_calls := [] |}.

Definition with_failures (w : World) (profile_failure : option exn)
    (unreachable : list string) : World :=
  {| accounts := accounts w;
     threepids := threepids w;
     profiles := profiles w;
     profile_backend_failure := profile_failure;
     smtp_unreachable_for := unreachable;
     outbox := outbox w;
     now_msec := now_msec w;
     renew_at := renew_at w;
     random_source := random_source w;
     msgid_counter := msgid_counter w;
     looping_calls := looping_calls w |}.

Definition with_random_source (w : World) (script : list string) : World :=
  {| accounts := accounts w;
     threepids := threepids w;
     profiles := profiles w;
     profile_backend_failure := profile_backend_failure w;
     smtp_unreachable_for := smtp_unreachable_for w;
     outbox := outbox w;
     now_msec := now_msec w;
     renew_at := renew_at w;
     random_source := script;
     msgid_counter := msgid_counter w;
     looping_calls := looping_calls w |}.

Definition with_threepids (w : World) (tps : list (string * threepid)) : World :=
  {| accounts := accounts w;
     threepids := tps;
     profiles := profiles w;
     profile_backend_failure := profile_backend_failure w;
     smtp_unreachable_for := smtp_unreachable_for w;
     outbox := outbox w;
     now_msec := now_msec w;
     renew_at := renew_at w;
     random_source := random_source w;
     msgid_counter := msgid_counter w;
     looping_calls := looping_calls w |}.

Definition with_profiles (w : World) (ps : list (string * option string)) : World :=
  {| accounts := accounts w;
     threepids := threepids w;
     profiles := ps;
     profile_backend_failure := profile_backend_failure w;
     smtp_unreachable_for := smtp_unreachable_for w;
     outbox := outbox w;
     now_msec := now_msec w;
     renew_at := renew_at w;
     random_source := random_source w;
     msgid_counter := msgid_counter w;
     looping_calls := looping_calls w |}.

(** No profile rows, and the first token drawn for each account
    collides: four store calls fail with a [StoreError]. *)
Definition store_errors_recovered : World :=
  with_random_source (with_profiles two_accounts [])
    ["tok1"; "fresh1"; "fresh1"; "fresh2"].

(** The SMTP server refuses the first address of [@u1:hs]. *)
Definition first_address_unreachable : World :=
  with_failures two_accounts None ["a@example.com"].


(** The profile table cannot be read: the database driver raises. *)
Definition profile_backend_down : World :=
  with_failures two_accounts (Some (PyException "OperationalError")) [].

(** The random source keeps producing the token [@u1:hs] already holds. *)
Definition always_colliding : World :=
  with_random_source two_accounts ["tok1"].

(** The first two candidates collide, the third is free. *)
Definition colliding_twice : World :=
  with_random_source two_accounts ["tok1"; "tok1"; "fresh"].

(** [@u1:hs] has a phone number only. *)
Definition no_email_address : World :=
  with_threepids two_accounts
    [ ("@u1:hs", {| medium := "msisdn"; address := "447700900000" |});
      ("@u2:hs", {| medium := "email"; address := "c@example.com" |}) ].

(** A from-template that names a key the mapping does not have: [%]
    raises KeyError on it. *)
Definition unknown_key_config : Config :=
  {| renew_by_email_enabled := true;
     period := 500;
     email_app_name := "Matrix";
     renew_email_subject := "Renew your %(app)s account";
     email_notif_from := "%(server_name)s <noreply@example.com>";
     email_expiry_template_html := "notice_expiry.html";
     email_expiry_template_text := "notice_expiry.txt";
     public_baseurl := "https://hs.example.com/";
     email_smtp_host := "localhost";
     email_smtp_port := 25;
     email_smtp_user := None;
     email_smtp_pass := None;
     require_transport_security := false |}.

Definition u1 : expiring_user :=
  {| user_id := "@u1:hs"; expiration_ts_ms := 1040 |}.

Definition u2 : expiring_user :=
  {| user_id := "@u2:hs"; expiration_ts_ms := 1060 |}.

Definition expiration_of (user : string) (w : World) : option Z :=
  match find (fun a => String.eqb (acc_user_id a) user) (accounts w) with
  | Some a => Some (acc_expiration_ts_ms a)
  | None => None
  end.

End InMemory.

(** ** Observations on a trace *)

(** The calls made between two states of a run. *)
Definition calls (tr : list event) : list call := map ev_call tr.

(** The [set_renewal_mail_status] calls of a trace, in order. *)
Fixpoint mail_status_calls (tr : list event) : list (string * bool) :=
  match tr with
  | [] => []
  | e :: rest =>
      match ev_call e with
      | Call_set_renewal_mail_status u b => (u, b) :: mail_status_calls rest
      | _ => mail_status_calls rest
      end
  end.

(** The [sendmail] calls of a trace: the arguments and how each ended. *)
Fixpoint sendmail_calls (tr : list event) : list (sendmail_args * option exn) :=
  match tr with
  | [] => []
  | e :: rest =>
      match ev_call e with
      | Call_sendmail a => (a, ev_failure e) :: sendmail_calls rest
      | _ => sendmail_calls rest
      end
  end.

(** The tokens generated in a trace: one per [random_string] call. *)
Fixpoint generations (tr : list event) : nat :=
  match tr with
  | [] => O
  | e :: rest =>
      match ev_call e with
      | Call_random_string _ => S (generations rest)
      | _ => generations rest
      end
  end.

(** The [set_renewal_token_for_user] calls of a trace and how each ended. *)
Fixpoint token_writes (tr : list event) : list (string * string * option exn) :=
  match tr with
  | [] => []
  | e :: rest =>
      match ev_call e with
      | Call_set_renewal_token_for_user u t => (u, t, ev_failure e) :: token_writes rest
      | _ => token_writes rest
      end
  end.

(** A write the store refused with its conflict signal. *)
Definition refused (w : string * string * option exn) : Prop :=
  exists code msg, snd w = Some (StoreError code msg).

(** A write that did not go through, whatever the reason. *)
Definition not_written (w : string * string * option exn) : Prop :=
  snd w <> None.

Definition is_mail_status_call (c : call) : bool :=
  match c with
  | Call_set_renewal_mail_status _ _ => true
  | _ => false
  end.

Definition is_sendmail_call (c : call) : bool :=
  match c with
  | Call_sendmail _ => true
  | _ => false
  end.

(** Per-account processing has begun for [user]: its first step, the
    threepid lookup, was called. *)
Definition processed (user : string) (tr : list event) : Prop :=
  In (Call_user_get_threepids user) (calls tr).

(** The state of a scan cycle once the store has answered its query. *)
Definition after_query {W} (hs : Collaborators W) (s : St W) : St W :=
  {| world := snd (store_get_users_expiring_soon hs (world s));
     trace :=
       (trace s ++
        [ {| ev_call := Call_get_users_expiring_soon;
             ev_failure :=
               failure_of (fst (store_get_users_expiring_soon hs (world s))) |} ])%list |}.

(** The two MIME parts [send_renewal_email_to_user] renders for a display
    name, an expiration and a token. *)
Definition vars_for (config : Config) (name : string) (expiration : Z)
    (renewal_token : string) : template_vars :=
  {| display_name := name;
     expiration_ts := expiration;
     url := renewal_url config renewal_token |}.

Definition html_part_for (config : Config) (self : email_attrs) (name : string)
    (expiration : Z) (renewal_token : string) : MIMEText :=
  {| payload := _template_html self (vars_for config name expiration renewal_token);
     subtype := "html"; charset := "utf8" |}.

Definition text_part_for (config : Config) (self : email_attrs) (name : string)
    (expiration : Z) (renewal_token : string) : MIMEText :=
  {| payload := _template_text self (vars_for config name expiration renewal_token);
     subtype := "plain"; charset := "utf8" |}.

(** The state once the store has answered the threepid query for [user]. *)
Definition after_threepids {W} (hs : Collaborators W) (user : string) (s : St W)
    : St W :=
  {| world := snd (store_user_get_threepids hs user (world s));
     trace :=
       (trace s ++
        [ {| ev_call := Call_user_get_threepids user;
             ev_failure :=
               failure_of (fst (store_user_get_threepids hs user (world s))) |} ])%list |}.

(** The state once the store has answered the display-name query. *)
Definition after_profile_lookup {W} (hs : Collaborators W) (localpart : string)
    (s : St W) : St W :=
  {| world := snd (store_get_profile_displayname hs localpart (world s));
     trace :=
       (trace s ++
        [ {| ev_call := Call_get_profile_displayname localpart;
             ev_failure :=
               failure_of (fst (store_get_profile_displayname hs localpart (world s))) |} ])%list |}.

(** The recipient and the outcome of each [sendmail] call of a trace. *)
Definition deliveries (tr : list event) : list (string * option exn) :=
  map (fun c => (To (msg (fst c)), snd c)) (sendmail_calls tr).

(** The calls token issuance for [user] may make: [random_string(32)]
    and a token write for that user. *)
Definition issuance_call (user : string) (c : call) : bool :=
  match c with
  | Call_random_string n => Nat.eqb n 32
  | Call_set_renewal_token_for_user u _ => String.eqb u user
  | _ => false
  end.

(** The world after one pass of the issuance loop: a token is drawn, then
    the store is asked to write it for [user]. *)
Definition attempt_world {W} (hs : Collaborators W) (user : string) (w : W) : W :=
  snd (store_set_renewal_token_for_user hs user
         (fst (stringutils_random_string hs 32 w))
         (snd (stringutils_random_string hs 32 w))).

(** The calls of issuance passes that made the given token writes: each
    write is preceded by the generation of its token. *)
Definition attempt_calls (writes : list (string * string * option exn)) : list call :=
  flat_map (fun w => [Call_random_string 32;
                      Call_set_renewal_token_for_user (fst (fst w)) (snd (fst w))])
    writes.

(** The calls a scan cycle may make: everything but the renewal calls and
    the registration of a looping call, and [set_renewal_mail_status] only
    with [email_sent=True]. *)
Definition scan_call (c : call) : bool :=
  match c with
  | Call_get_users_expiring_soon => true
  | Call_set_renewal_mail_status _ email_sent => email_sent
  | Call_user_get_threepids _ => true
  | Call_get_profile_displayname _ => true
  | Call_set_renewal_token_for_user _ _ => true
  | Call_get_user_from_renewal_token _ => false
  | Call_renew_account_for_user _ _ => false
  | Call_sendmail _ => true
  | Call_random_string n => Nat.eqb n 32
  | Call_looping_call _ => false
  end.

(** What every [sendmail] call of the dispatch loop looks like: the
    envelope and connection settings come from the configuration and from
    [self], the message is a multipart/alternative addressed to one of the
    addresses, with the plain-text part first and the HTML part second. *)
Definition composed_for (config : Config) (self : email_attrs)
    (parseaddr : string -> string) (text_part html_part : MIMEText)
    (addresses : list string) (a : sendmail_args) : Prop :=
  smtphost a = email_smtp_host config /\
  from_addr a = _raw_from self /\
  to_addr a = parseaddr (To (msg a)) /\
  port a = email_smtp_port config /\
  requireAuthentication a
    = match email_smtp_user config with Some _ => true | None => false end /\
  username a = email_smtp_user config /\
  password a = email_smtp_pass config /\
  requireTransportSecurity a = require_transport_security config /\
  multipart_subtype (msg a) = "alternative" /\
  Subject (msg a) = _subject self /\
  From (msg a) = _from_string self /\
  In (To (msg a)) addresses /\
  parts (msg a) = [text_part; html_part].

(** A generator only ever extends the trace, and every call it adds
    satisfies [P]. *)
Definition emits {W A} (P : call -> bool) (m : M W A) : Prop :=
  forall s, exists evs,
    trace (snd (m s)) = (trace s ++ evs)%list /\
    forallb (fun e => P (ev_call e)) evs = true.

(** * Properties *)

(** ** Running generators *)

Section Laws.

Variable W : Type.

Lemma bind_returned (A B : Type) (m : M W A) (k : A -> M W B) s a s1 :
  m s = (Returned a, s1) -> bind m k s = k a s1.
Proof. intros H. unfold bind. now rewrite H. Qed.

Lemma bind_raised (A B : Type) (m : M W A) (k : A -> M W B) s e s1 :
  m s = (Raised e, s1) -> bind m k s = (Raised e, s1).
Proof. intros H. unfold bind. now rewrite H. Qed.

(** Yielding the Deferred of an [inlineCallbacks] method runs its body in
    place: its result is returned, its failure raised at the [yield]. *)
Lemma yield_inlineCallbacks (A : Type) (body : M W A) s :
  yield (inlineCallbacks body) s = body s.
Proof.
  unfold yield, inlineCallbacks, bind.
  destruct (body s) as [r s1]. reflexivity.
Qed.

Lemma yield_invoke (A : Type) (c : call) (f : W -> Deferred A * W) s :
  yield (invoke c f) s =
  (result (fst (f (world s))),
   {| world := snd (f (world s));
      trace := (trace s ++ [{| ev_call := c;
                               ev_failure := failure_of (fst (f (world s))) |}])%list |}).
Proof.
  unfold yield, invoke, bind.
  destruct (f (world s)) as [d w1]. reflexivity.
Qed.

Lemma for_each_cons (A : Type) (x : A) (xs : list A) (body : A -> M W unit) s :
  for_each (x :: xs) body s =
  match body x s with
  | (Returned _, s1) => for_each xs body s1
  | (Raised e, s1) => (Raised e, s1)
  end.
Proof. reflexivity. Qed.

(** A loop over [pre ++ post] runs [pre], and runs [post] only if no
    iteration of [pre] raised. *)
Lemma for_each_app (A : Type) (pre post : list A) (body : A -> M W unit) s :
  for_each (pre ++ post)%list body s =
  match for_each pre body s with
  | (Returned _, s1) => for_each post body s1
  | (Raised e, s1) => (Raised e, s1)
  end.
Proof.
  revert s. induction pre as [|x pre IH]; intros s.
  - reflexivity.
  - simpl app. rewrite !for_each_cons.
    destruct (body x s) as [[[]|e] s1]; [apply IH | reflexivity].
Qed.

(** The first iteration that raises ends the loop, in the state that
    iteration left. *)
Lemma for_each_stops (A : Type) (pre post : list A) (x : A)
    (body : A -> M W unit) s s1 e s2 :
  for_each pre body s = (Returned tt, s1) ->
  body x s1 = (Raised e, s2) ->
  for_each (pre ++ x :: post)%list body s = (Raised e, s2).
Proof.
  intros Hpre Hx. rewrite for_each_app, Hpre, for_each_cons, Hx. reflexivity.
Qed.

End Laws.

(** ** Renewal *)

Section Renewal.

Variable W : Type.
Variable hs : Collaborators W.
Variable config : Config.

(** What [renew_account] does on any deployment: it looks the token up,
    reads the clock, and calls [renew_account_for_user] with the Deferred
    of the lookup as [user] and [now + period] as the new expiration.  The
    Deferred it returns holds whatever that second call ended with; the
    outcome of the lookup is never read. *)
Lemma renew_account_run (renewal_token : string) (s : St W) :
  let lookup := store_get_user_from_renewal_token hs renewal_token (world s) in
  let new_expiration_date := clock_time_msec hs (snd lookup) + period config in
  let update :=
    store_renew_account_for_user hs (PyDeferred (fst lookup))
      new_expiration_date (snd lookup) in
  renew_account hs config renewal_token s =
  (Returned (mkDeferred (result (fst update))),
   {| world := snd update;
      trace :=
        (trace s ++
         [ {| ev_call := Call_get_user_from_renewal_token renewal_token;
              ev_failure := failure_of (fst lookup) |};
           {| ev_call := Call_renew_account_for_user (PyDeferred (fst lookup))
                           new_expiration_date;
              ev_failure := failure_of (fst update) |} ])%list |}).
Proof.
  cbv zeta.
  unfold renew_account, inlineCallbacks, yield, invoke, read, bind. simpl.
  destruct (store_get_user_from_renewal_token hs renewal_token (world s))
    as [user w1]. simpl.
  destruct (store_renew_account_for_user hs (PyDeferred user)
              (clock_time_msec hs w1 + period config) w1) as [d w2]. simpl.
  rewrite <- app_assoc. reflexivity.
Qed.

End Renewal.

(** C1, at a failing input.  In the in-memory deployment the token "tok1"
    maps to the account "@u1:hs", whose expiration is 1040; the clock
    reads 1000 and the validity period is 500.  [renew_account("tok1")]
    completes without error and computes 1500, but it hands the store the
    un-yielded Deferred of the lookup instead of the account identifier,
    so the stored expiration of "@u1:hs" is still 1040 afterwards. *)
Theorem renew_account_keeps_old_expiration :
  let run :=
    renew_account InMemory.hs InMemory.config "tok1"
      (InMemory.start InMemory.two_accounts) in
  InMemory.get_user_from_renewal_token "tok1" InMemory.two_accounts
    = (succeed "@u1:hs", InMemory.two_accounts) /\
  InMemory.expiration_of "@u1:hs" InMemory.two_accounts = Some 1040 /\
  fst run = Returned (succeed tt) /\
  calls (trace (snd run)) =
    [ Call_get_user_from_renewal_token "tok1";
      Call_renew_account_for_user (PyDeferred (succeed "@u1:hs")) 1500 ] /\
  InMemory.expiration_of "@u1:hs" (world (snd run)) = Some 1040.
Proof. vm_compute. repeat split; reflexivity. Qed.

(** C2, at a failing input.  No account holds the token "nope", and the
    store's lookup fails with its not-found error.  [renew_account("nope")]
    does not fail: the Deferred it returns holds a success, because the
    failed lookup is never yielded.  The world is left as it was. *)
Theorem renew_account_unknown_token_succeeds :
  let run :=
    renew_account InMemory.hs InMemory.config "nope"
      (InMemory.start InMemory.two_accounts) in
  InMemory.get_user_from_renewal_token "nope" InMemory.two_accounts
    = (fail InMemory.not_found, InMemory.two_accounts) /\
  fst run = Returned (succeed tt) /\
  world (snd run) = InMemory.two_accounts.
Proof. vm_compute. repeat split; reflexivity. Qed.

(** ** Token issuance *)


Lemma token_writes_app (a b : list event) :
  token_writes (a ++ b) = (token_writes a ++ token_writes b)%list.
Proof.
  induction a as [|e a IH]; simpl; [reflexivity|].
  destruct (ev_call e); simpl; rewrite IH; reflexivity.
Qed.

Section Tokens.

Variable W : Type.
Variable hs : Collaborators W.
Variable user : string.

Lemma while_attempts_eq (budget : nat) (attempts : Z) :
  while_attempts hs budget user attempts =
  if attempts <? 5 then
    match budget with
    | O => raise out_of_budget
    | S budget' =>
        try_except (try_new_token hs user) isinstance_StoreError
          (while_attempts hs budget' user (attempts + 1))
    end
  else raise exhausted.
Proof. destruct budget; reflexivity. Qed.

(** One pass through the [try] body: a token is generated, the store is
    asked to persist it, and the token is returned unless the store's
    Deferred failed. *)
Lemma try_new_token_run (s : St W) :
  let gen := stringutils_random_string hs 32 (world s) in
  let write := store_set_renewal_token_for_user hs user (fst gen) (snd gen) in
  try_new_token hs user s =
  (match result (fst write) with
   | Returned _ => Returned (fst gen)
   | Raised e => Raised e
   end,
   {| world := snd write;
      trace :=
        (trace s ++
         [ {| ev_call := Call_random_string 32; ev_failure := None |};
           {| ev_call := Call_set_renewal_token_for_user user (fst gen);
              ev_failure := failure_of (fst write) |} ])%list |}).
Proof.
  cbv zeta. unfold try_new_token, yield, invoke, invoke_sync, bind, ret. simpl.
  destruct (stringutils_random_string hs 32 (world s)) as [tok w1]. simpl.
  destruct (store_set_renewal_token_for_user hs user tok w1) as [[r] w2]. simpl.
  rewrite <- app_assoc. simpl.
  unfold failure_of. simpl. destruct r; reflexivity.
Qed.

(** The budget of [while_attempts] is never the reason the loop ends: any
    two budgets of at least [5 - attempts] give the same run. *)
Lemma while_attempts_budget (b1 b2 : nat) (attempts : Z) (s : St W) :
  5 - attempts <= Z.of_nat b1 ->
  5 - attempts <= Z.of_nat b2 ->
  while_attempts hs b1 user attempts s = while_attempts hs b2 user attempts s.
Proof.
  revert b2 attempts s.
  induction b1 as [|b1 IH]; intros b2 attempts s H1 H2;
    rewrite (while_attempts_eq _ attempts), (while_attempts_eq b2 attempts);
    destruct (Z.ltb_spec attempts 5) as [Hlt|Hge]; try reflexivity.
  - lia.
  - destruct b2 as [|b2]; [lia|].
    unfold try_except.
    destruct (try_new_token hs user s) as [[tok|e] s1]; [reflexivity|].
    destruct (isinstance_StoreError e); [|reflexivity].
    apply IH; lia.
Qed.

(** The loop from any value of [attempts]: at most [5 - attempts] tokens
    are generated; a returned token is the one of the last write, which
    the store accepted after refusing every earlier one; a raised
    exception means no write went through. *)
Lemma while_attempts_run (budget : nat) (attempts : Z) (s : St W) :
  Z.of_nat budget = 5 - attempts ->
  exists evs,
    trace (snd (while_attempts hs budget user attempts s))
      = (trace s ++ evs)%list /\
    (generations evs <= budget)%nat /\
    List.length (token_writes evs) = generations evs /\
    match fst (while_attempts hs budget user attempts s) with
    | Returned tok =>
        exists before,
          token_writes evs = (before ++ [(user, tok, None)])%list /\
          Forall refused before
    | Raised e => Forall not_written (token_writes evs)
    end.
Proof.
  revert attempts s.
  induction budget as [|budget IH]; intros attempts s Hb;
    rewrite while_attempts_eq;
    destruct (Z.ltb_spec attempts 5) as [Hlt|Hge]; try lia.
  - exists []. simpl. rewrite app_nil_r.
    repeat split; auto.
  - unfold try_except. rewrite try_new_token_run.
    set (gen := stringutils_random_string hs 32 (world s)).
    set (write := store_set_renewal_token_for_user hs user (fst gen) (snd gen)).
    destruct (fst write) as [[[]|e]] eqn:Hw; simpl.
    + eexists. split; [reflexivity|]. simpl.
      repeat split; try lia.
      exists []. split; [reflexivity | constructor].
    + destruct (isinstance_StoreError e) eqn:He.
      * match goal with
        | |- context [while_attempts hs budget user (attempts + 1) ?s1] =>
            destruct (IH (attempts + 1) s1 ltac:(lia)) as (evs & Htr & Hgen & Hlen & Hres);
            set (s1' := s1) in *
        end.
        simpl in Htr.
        eexists. split; [rewrite Htr, <- app_assoc; reflexivity|].
        simpl. repeat split; try lia.
        destruct (fst (while_attempts hs budget user (attempts + 1) s1')) as [tok|e'].
        -- destruct Hres as (before & Hbefore & Hall).
           exists ((user, fst gen, Some e) :: before). split.
           ++ rewrite Hbefore. reflexivity.
           ++ constructor; [|exact Hall].
              destruct e; try discriminate. eexists _, _. reflexivity.
        -- constructor; [|exact Hres]. unfold not_written. simpl. discriminate.
      * eexists. split; [reflexivity|]. simpl.
        repeat split; try lia.
        constructor; [|constructor]. unfold not_written. simpl. discriminate.
Qed.

End Tokens.

Section Issuance.

Variable W : Type.
Variable hs : Collaborators W.
Variable user : string.

(** When the store refuses every write, the loop generates exactly
    [5 - attempts] tokens and then raises the exhaustion error. *)
Lemma while_attempts_all_refused (budget : nat) (attempts : Z) (s : St W) :
  Z.of_nat budget = 5 - attempts ->
  (forall tok w, exists code msg,
      result (fst (store_set_renewal_token_for_user hs user tok w))
        = Raised (StoreError code msg)) ->
  fst (while_attempts hs budget user attempts s) = Raised exhausted /\
  exists evs,
    trace (snd (while_attempts hs budget user attempts s))
      = (trace s ++ evs)%list /\
    generations evs = budget /\
    Forall refused (token_writes evs).
Proof.
  intros Hb Hall. revert attempts s Hb.
  induction budget as [|budget IH]; intros attempts s Hb;
    rewrite while_attempts_eq;
    destruct (Z.ltb_spec attempts 5) as [Hlt|Hge]; try lia.
  - split; [reflexivity|]. exists []. simpl. rewrite app_nil_r. auto.
  - unfold try_except. rewrite try_new_token_run.
    set (gen := stringutils_random_string hs 32 (world s)).
    destruct (Hall (fst gen) (snd gen)) as (code & msg & Hw).
    unfold failure_of. rewrite Hw. simpl.
    match goal with
    | |- context [while_attempts hs budget user (attempts + 1) ?s1] =>
        destruct (IH (attempts + 1) s1 ltac:(lia)) as (Hres & evs & Htr & Hgen & Href)
    end.
    split; [exact Hres|].
    eexists. split; [rewrite Htr; simpl; rewrite <- app_assoc; reflexivity|].
    simpl. split; [now rewrite Hgen|].
    constructor; [|exact Href]. eexists _, _. reflexivity.
Qed.

(** How the loop ends from any value of [attempts]: with a token, after
    the store accepted its write; with the exhaustion error, after the
    store refused [5 - attempts] writes; or with an exception that is not
    a [StoreError], raised by the last write and not retried. *)
Lemma while_attempts_ends (budget : nat) (attempts : Z) (s : St W) :
  Z.of_nat budget = 5 - attempts ->
  exists evs,
    trace (snd (while_attempts hs budget user attempts s))
      = (trace s ++ evs)%list /\
    match fst (while_attempts hs budget user attempts s) with
    | Returned tok =>
        exists before,
          token_writes evs = (before ++ [(user, tok, None)])%list /\
          Forall refused before
    | Raised e =>
        (e = exhausted /\ generations evs = budget /\
         Forall refused (token_writes evs)) \/
        (isinstance_StoreError e = false /\
         exists before tok,
           token_writes evs = (before ++ [(user, tok, Some e)])%list /\
           Forall refused before)
    end.
Proof.
  revert attempts s.
  induction budget as [|budget IH]; intros attempts s Hb;
    rewrite while_attempts_eq;
    destruct (Z.ltb_spec attempts 5) as [Hlt|Hge]; try lia.
  - exists []. simpl. rewrite app_nil_r. split; [reflexivity|].
    left. repeat split; constructor.
  - unfold try_except. rewrite try_new_token_run.
    set (gen := stringutils_random_string hs 32 (world s)).
    set (write := store_set_renewal_token_for_user hs user (fst gen) (snd gen)).
    destruct (fst write) as [[[]|e]] eqn:Hw; simpl.
    + eexists. split; [reflexivity|]. simpl.
      exists []. split; [reflexivity | constructor].
    + destruct (isinstance_StoreError e) eqn:He.
      * match goal with
        | |- context [while_attempts hs budget user (attempts + 1) ?s1] =>
            destruct (IH (attempts + 1) s1 ltac:(lia)) as (evs & Htr & Hres);
            set (s1' := s1) in *
        end.
        simpl in Htr.
        assert (Href : refused (user, fst gen, Some e)).
        { destruct e; try discriminate. eexists _, _. reflexivity. }
        eexists. split; [rewrite Htr, <- app_assoc; reflexivity|].
        simpl.
        destruct (fst (while_attempts hs budget user (attempts + 1) s1')) as [tok|e'].
        -- destruct Hres as (before & Hbefore & Hall).
           exists ((user, fst gen, Some e) :: before). split.
           ++ rewrite Hbefore. reflexivity.
           ++ constructor; assumption.
        -- destruct Hres as [(Hex & Hgen & Hall)|(Hcls & before & tok & Hbefore & Hall)].
           ++ left. split; [exact Hex|]. split; [now rewrite Hgen|].
              constructor; assumption.
           ++ right. split; [exact Hcls|].
              exists ((user, fst gen, Some e) :: before), tok. split.
              ** rewrite Hbefore. reflexivity.
              ** constructor; assumption.
      * eexists. split; [reflexivity|]. simpl.
        right. split; [exact He|].
        exists [], (fst gen). split; [reflexivity | constructor].
Qed.


End Issuance.


(** ** Which calls a generator makes *)

Lemma mail_status_calls_app (a b : list event) :
  mail_status_calls (a ++ b) = (mail_status_calls a ++ mail_status_calls b)%list.
Proof.
  induction a as [|e a IH]; simpl; [reflexivity|].
  destruct (ev_call e); simpl; rewrite IH; reflexivity.
Qed.

Lemma sendmail_calls_app (a b : list event) :
  sendmail_calls (a ++ b) = (sendmail_calls a ++ sendmail_calls b)%list.
Proof.
  induction a as [|e a IH]; simpl; [reflexivity|].
  destruct (ev_call e); simpl; rewrite IH; reflexivity.
Qed.

Lemma mail_status_calls_none (evs : list event) :
  forallb (fun e => negb (is_mail_status_call (ev_call e))) evs = true ->
  mail_status_calls evs = [].
Proof.
  induction evs as [|e evs IH]; simpl; [reflexivity|].
  intros H. apply andb_prop in H. destruct H as [He Hevs].
  destruct (ev_call e); simpl in He; try discriminate; auto.
Qed.

Lemma sendmail_calls_none (evs : list event) :
  forallb (fun e => negb (is_sendmail_call (ev_call e))) evs = true ->
  sendmail_calls evs = [].
Proof.
  induction evs as [|e evs IH]; simpl; [reflexivity|].
  intros H. apply andb_prop in H. destruct H as [He Hevs].
  destruct (ev_call e); simpl in He; try discriminate; auto.
Qed.

Section Emits.

Variable W : Type.
Variable P : call -> bool.

Lemma emits_ret (A : Type) (a : A) : emits P (@ret W A a).
Proof. intros s. exists []. simpl. now rewrite app_nil_r. Qed.

Lemma emits_raise (A : Type) (e : exn) : emits P (@raise W A e).
Proof. intros s. exists []. simpl. now rewrite app_nil_r. Qed.

Lemma emits_lift (A : Type) (r : outcome A) : emits P (@lift W A r).
Proof. intros s. exists []. simpl. now rewrite app_nil_r. Qed.

Lemma emits_read (A : Type) (f : W -> A) : emits P (read f).
Proof. intros s. exists []. simpl. now rewrite app_nil_r. Qed.

Lemma emits_step (A : Type) (f : W -> A * W) : emits P (step f).
Proof.
  intros s. exists []. unfold step. destruct (f (world s)). simpl.
  now rewrite app_nil_r.
Qed.

Lemma emits_invoke (A : Type) (c : call) (f : W -> Deferred A * W) :
  P c = true -> emits P (invoke c f).
Proof.
  intros Hc s. unfold invoke. destruct (f (world s)) as [d w1].
  eexists. split; [reflexivity|]. simpl. now rewrite Hc.
Qed.

Lemma emits_invoke_sync (A : Type) (c : call) (f : W -> A * W) :
  P c = true -> emits P (invoke_sync c f).
Proof.
  intros Hc s. unfold invoke_sync. destruct (f (world s)) as [a w1].
  eexists. split; [reflexivity|]. simpl. now rewrite Hc.
Qed.

Lemma emits_bind (A B : Type) (m : M W A) (k : A -> M W B) :
  emits P m -> (forall a, emits P (k a)) -> emits P (bind m k).
Proof.
  intros Hm Hk s. unfold bind.
  destruct (Hm s) as (evs1 & Htr1 & Hall1).
  destruct (m s) as [[a|e] s1]; simpl in Htr1.
  - destruct (Hk a s1) as (evs2 & Htr2 & Hall2).
    exists (evs1 ++ evs2)%list. split.
    + rewrite Htr2, Htr1, app_assoc. reflexivity.
    + rewrite forallb_app, Hall1, Hall2. reflexivity.
  - exists evs1. simpl. auto.
Qed.

Lemma emits_yield (A : Type) (m : M W (Deferred A)) :
  emits P m -> emits P (yield m).
Proof.
  intros Hm. unfold yield. apply emits_bind; [exact Hm|].
  intros d s. exists []. simpl. now rewrite app_nil_r.
Qed.

Lemma emits_inlineCallbacks (A : Type) (body : M W A) :
  emits P body -> emits P (inlineCallbacks body).
Proof.
  intros Hb s. unfold inlineCallbacks.
  destruct (Hb s) as (evs & Htr & Hall).
  destruct (body s) as [r s1]. exists evs. auto.
Qed.

Lemma emits_try_except (A : Type) (body : M W A) (cls : exn -> bool)
    (handler : M W A) :
  emits P body -> emits P handler -> emits P (try_except body cls handler).
Proof.
  intros Hb Hh s. unfold try_except.
  destruct (Hb s) as (evs1 & Htr1 & Hall1).
  destruct (body s) as [[a|e] s1]; simpl in Htr1.
  - exists evs1. auto.
  - destruct (cls e).
    + destruct (Hh s1) as (evs2 & Htr2 & Hall2).
      exists (evs1 ++ evs2)%list. split.
      * rewrite Htr2, Htr1, app_assoc. reflexivity.
      * rewrite forallb_app, Hall1, Hall2. reflexivity.
    + exists evs1. auto.
Qed.

Lemma emits_for_each (A : Type) (xs : list A) (body : A -> M W unit) :
  (forall x, emits P (body x)) -> emits P (for_each xs body).
Proof.
  intros Hb. induction xs as [|x xs IH]; simpl.
  - apply emits_ret.
  - apply emits_bind; [apply Hb | intros _; exact IH].
Qed.

Variable hs : Collaborators W.
Variable config : Config.
Variable self : email_attrs.

Lemma emits_try_new_token (user : string) :
  P (Call_random_string 32) = true ->
  (forall tok, P (Call_set_renewal_token_for_user user tok) = true) ->
  emits P (try_new_token hs user).
Proof.
  intros Hr Hw. unfold try_new_token.
  apply emits_bind; [now apply emits_invoke_sync|]. intros tok.
  apply emits_bind; [apply emits_yield, emits_invoke, Hw|]. intros _.
  apply emits_ret.
Qed.

Lemma emits_while_attempts (budget : nat) (user : string) (attempts : Z) :
  P (Call_random_string 32) = true ->
  (forall tok, P (Call_set_renewal_token_for_user user tok) = true) ->
  emits P (while_attempts hs budget user attempts).
Proof.
  intros Hr Hw. revert attempts.
  induction budget as [|budget IH]; intros attempts;
    rewrite while_attempts_eq; destruct (attempts <? 5);
    try apply emits_raise.
  apply emits_try_except; [now apply emits_try_new_token | apply IH].
Qed.

Lemma emits_lookup_display_name (user : string) :
  (forall l, P (Call_get_profile_displayname l) = true) ->
  emits P (lookup_display_name hs user).
Proof.
  intros Hp. unfold lookup_display_name.
  apply emits_try_except; [|apply emits_ret].
  apply emits_bind; [apply emits_lift|]. intros l.
  apply emits_bind; [apply emits_yield, emits_invoke, Hp|].
  intros [name|]; apply emits_ret.
Qed.

Lemma emits_dispatch (text_part html_part : MIMEText) (addresses : list string) :
  (forall a, P (Call_sendmail a) = true) ->
  emits P (dispatch hs config self text_part html_part addresses).
Proof.
  intros Hs. unfold dispatch. apply emits_for_each. intros addr.
  unfold send_to_address.
  apply emits_bind; [apply emits_read|]. intros date.
  apply emits_bind; [apply emits_step|]. intros msgid.
  apply emits_yield, emits_invoke, Hs.
Qed.

(** Processing one account calls the store for threepids, the display
    name and the token write, the token generator, and the mail
    transport; nothing else. *)
Lemma emits_send_renewal_email_to_user (user : string) (expiration : Z) :
  P (Call_user_get_threepids user) = true ->
  (forall l, P (Call_get_profile_displayname l) = true) ->
  P (Call_random_string 32) = true ->
  (forall tok, P (Call_set_renewal_token_for_user user tok) = true) ->
  (forall a, P (Call_sendmail a) = true) ->
  emits P (send_renewal_email_to_user hs config self user expiration).
Proof.
  intros Ht Hp Hr Hw Hs. unfold send_renewal_email_to_user.
  apply emits_inlineCallbacks.
  apply emits_bind.
  { apply emits_yield. unfold _get_email_addresses_for_user.
    apply emits_inlineCallbacks.
    apply emits_bind; [apply emits_yield, emits_invoke, Ht|].
    intros tps. apply emits_ret. }
  intros addresses.
  apply emits_bind; [now apply emits_lookup_display_name|]. intros name.
  apply emits_bind.
  { apply emits_yield. unfold _get_renewal_token.
    apply emits_inlineCallbacks. now apply emits_while_attempts. }
  intros tok. now apply emits_dispatch.
Qed.

End Emits.

(** ** The scan cycle *)

Section Scan.

Variable W : Type.
Variable hs : Collaborators W.
Variable config : Config.
Variable self : email_attrs.

Local Abbreviation scan := (scan_candidate hs config self).
Local Abbreviation send_to c :=
  (yield (send_renewal_email_to_user hs config self (user_id c) (expiration_ts_ms c))).

Lemma scan_candidate_run (c : expiring_user) (s : St W) :
  scan c s =
  match send_to c s with
  | (Returned _, s2) =>
      yield (invoke (Call_set_renewal_mail_status (user_id c) true)
               (store_set_renewal_mail_status hs (user_id c) true)) s2
  | (Raised e, s1) => (Raised e, s1)
  end.
Proof. reflexivity. Qed.

(** Sending the renewal email to a user never calls
    [set_renewal_mail_status]. *)
Lemma send_makes_no_mail_status_call (c : expiring_user) (s : St W) :
  exists evs,
    trace (snd (send_to c s)) = (trace s ++ evs)%list /\
    mail_status_calls evs = [].
Proof.
  destruct (@emits_yield W (fun c => negb (is_mail_status_call c)) unit
              (send_renewal_email_to_user hs config self (user_id c)
                 (expiration_ts_ms c))
              ltac:(apply emits_send_renewal_email_to_user; reflexivity) s)
    as (evs & Htr & Hall).
  exists evs. split; [exact Htr | now apply mail_status_calls_none].
Qed.

Lemma scan_extends_trace (rows : list expiring_user) (s : St W) :
  exists evs, trace (snd (for_each rows scan s)) = (trace s ++ evs)%list.
Proof.
  destruct (@emits_for_each W (fun _ => true) expiring_user rows scan) with (s := s)
    as (evs & Htr & _).
  - intros c. unfold scan_candidate.
    apply emits_bind.
    + apply emits_yield, emits_send_renewal_email_to_user; reflexivity.
    + intros _. apply emits_yield, emits_invoke. reflexivity.
  - exists evs. exact Htr.
Qed.

(** Every [set_renewal_mail_status] call of the loop belongs to a
    candidate that the loop reached and whose email had just been sent
    without error; the call comes after everything that sending did. *)
Lemma scan_loop_mail_status (rows : list expiring_user) :
  forall (s : St W) (evs : list event) (u : string) (b : bool),
    trace (snd (for_each rows scan s)) = (trace s ++ evs)%list ->
    In (u, b) (mail_status_calls evs) ->
    exists pre c post s1 s2 ev more,
      rows = (pre ++ c :: post)%list /\
      user_id c = u /\ b = true /\
      for_each pre scan s = (Returned tt, s1) /\
      send_to c s1 = (Returned tt, s2) /\
      ev_call ev = Call_set_renewal_mail_status u true /\
      trace (snd (for_each rows scan s)) = (trace s2 ++ ev :: more)%list.
Proof.
  induction rows as [|c rows IH]; intros s evs u b Htr Hin.
  - simpl in Htr. rewrite <- (app_nil_r (trace s)) in Htr at 1.
    apply app_inv_head in Htr. subst evs. destruct Hin.
  - rewrite for_each_cons, scan_candidate_run in Htr |- *.
    destruct (send_makes_no_mail_status_call c s) as (devs & Hd & Hnone).
    destruct (send_to c s) as [[[]|e] s2] eqn:Hsend; simpl in Hd.
    + rewrite yield_invoke in Htr |- *.
      set (upd := store_set_renewal_mail_status hs (user_id c) true (world s2)) in *.
      set (ev := {| ev_call := Call_set_renewal_mail_status (user_id c) true;
                    ev_failure := failure_of (fst upd) |}) in *.
      set (s3 := {| world := snd upd; trace := (trace s2 ++ [ev])%list |}) in *.
      destruct (result (fst upd)) as [[]|e] eqn:Hupd.
      * destruct (scan_extends_trace rows s3) as (evs' & Hrest).
        assert (Hevs : evs = (devs ++ ev :: evs')%list).
        { rewrite Hrest in Htr. simpl in Htr. rewrite Hd in Htr.
          rewrite <- !app_assoc in Htr. apply app_inv_head in Htr.
          simpl in Htr. now symmetry. }
        subst evs. rewrite mail_status_calls_app, Hnone in Hin. simpl in Hin.
        destruct Hin as [Heq|Hin].
        -- inversion Heq; subst.
           exists [], c, rows, s, s2, ev, evs'. repeat split; auto.
           rewrite Hrest. simpl. rewrite <- app_assoc. reflexivity.
        -- destruct (IH s3 evs' u b Hrest Hin)
             as (pre & c' & post & s1' & s2' & ev' & more & Hrows & Hu & Hb
                 & Hpre & Hsend' & Hev & Hfin).
           exists (c :: pre), c', post, s1', s2', ev', more.
           repeat split; auto.
           ++ now rewrite Hrows.
           ++ rewrite for_each_cons, scan_candidate_run, Hsend, yield_invoke.
              fold upd. rewrite Hupd. exact Hpre.
      * simpl in Htr. rewrite Hd, <- app_assoc in Htr.
        apply app_inv_head in Htr. subst evs.
        rewrite mail_status_calls_app, Hnone in Hin. simpl in Hin.
        destruct Hin as [Heq|[]]. inversion Heq; subst.
        exists [], c, rows, s, s2, ev, []. repeat split; auto.
    + simpl in Htr. rewrite Hd in Htr. apply app_inv_head in Htr. subst evs.
      rewrite Hnone in Hin. destruct Hin.
Qed.

End Scan.

Section ScanCycle.

Variable W : Type.
Variable hs : Collaborators W.
Variable config : Config.
Variable self : email_attrs.

Local Abbreviation scan := (scan_candidate hs config self).
Local Abbreviation send_to c :=
  (yield (send_renewal_email_to_user hs config self (user_id c) (expiration_ts_ms c))).
(** A cycle is the store query followed by the loop over its rows. *)
Lemma send_renewal_emails_run (s : St W) :
  yield (send_renewal_emails hs config self) s =
  match result (fst (store_get_users_expiring_soon hs (world s))) with
  | Returned rows => for_each rows scan (after_query hs s)
  | Raised e => (Raised e, after_query hs s)
  end.
Proof.
  unfold send_renewal_emails. rewrite yield_inlineCallbacks.
  unfold bind. rewrite yield_invoke.
  destruct (result (fst (store_get_users_expiring_soon hs (world s))));
    reflexivity.
Qed.

(** C4, as amended.  An exception that escapes the processing of one
    candidate ends the cycle: the candidates before it have been
    processed, the cycle ends in the state that candidate's processing
    left, so no call is made for the candidates after it, and the Deferred
    of [send_renewal_emails] holds that exception.  The exception is not
    raised into the caller: every call of [send_renewal_emails] returns a
    Deferred. *)
Theorem scan_stops_at_first_failure (s : St W)
    (pre post : list expiring_user) (c : expiring_user)
    (s1 s2 : St W) (e : exn) :
  result (fst (store_get_users_expiring_soon hs (world s)))
    = Returned (pre ++ c :: post)%list ->
  for_each pre scan (after_query hs s) = (Returned tt, s1) ->
  scan c s1 = (Raised e, s2) ->
  send_renewal_emails hs config self s = (Returned (fail e), s2) /\
  (forall s', exists d,
      fst (send_renewal_emails hs config self s') = Returned d).
Proof.
  intros Hq Hpre Hc. split.
  - pose proof (send_renewal_emails_run s) as Hrun.
    rewrite Hq in Hrun.
    erewrite for_each_stops in Hrun; [|exact Hpre|exact Hc].
    unfold send_renewal_emails in Hrun |- *.
    rewrite yield_inlineCallbacks in Hrun.
    unfold inlineCallbacks. rewrite Hrun. reflexivity.
  - intros s'. unfold send_renewal_emails, inlineCallbacks.
    match goal with
    | |- context [let (_, _) := ?m s' in _] => destruct (m s') as [r s'']
    end.
    eexists. reflexivity.
Qed.

(** C6.  In a scan cycle, when sending the renewal email of a candidate
    fails, that iteration makes no [set_renewal_mail_status] call and the
    failure leaves the loop body at once.  Every [set_renewal_mail_status]
    call of a cycle sets the flag to true, for a candidate the loop
    reached and whose email had been sent without error in the state the
    loop was in, and the call comes after everything the sending did. *)
Theorem notified_only_after_successful_dispatch (s : St W)
    (rows : list expiring_user) :
  result (fst (store_get_users_expiring_soon hs (world s))) = Returned rows ->
  (forall c s1 e s2,
      send_to c s1 = (Raised e, s2) ->
      scan c s1 = (Raised e, s2) /\
      mail_status_calls (trace s2) = mail_status_calls (trace s1)) /\
  (forall evs u b,
      trace (snd (yield (send_renewal_emails hs config self) s))
        = (trace s ++ evs)%list ->
      In (u, b) (mail_status_calls evs) ->
      exists pre c post s1 s2 ev more,
        rows = (pre ++ c :: post)%list /\
        user_id c = u /\ b = true /\
        for_each pre scan (after_query hs s) = (Returned tt, s1) /\
        send_to c s1 = (Returned tt, s2) /\
        ev_call ev = Call_set_renewal_mail_status u true /\
        trace (snd (yield (send_renewal_emails hs config self) s))
          = (trace s2 ++ ev :: more)%list).
Proof.
  intros Hq. split.
  - intros c s1 e s2 Hsend. split.
    + rewrite scan_candidate_run, Hsend. reflexivity.
    + destruct (send_makes_no_mail_status_call hs config self c s1)
        as (devs & Hd & Hnone).
      rewrite Hsend in Hd. simpl in Hd.
      rewrite Hd, mail_status_calls_app, Hnone, app_nil_r. reflexivity.
  - intros evs u b Htr Hin.
    rewrite send_renewal_emails_run, Hq in Htr |- *.
    destruct (scan_extends_trace hs config self rows (after_query hs s))
      as (evs' & Hrest).
    assert (Hevs : evs =
              ({| ev_call := Call_get_users_expiring_soon;
                  ev_failure :=
                    failure_of (fst (store_get_users_expiring_soon hs (world s))) |}
               :: evs')%list).
    { rewrite Hrest in Htr. unfold after_query in Htr. simpl in Htr.
      rewrite <- app_assoc in Htr.
      apply app_inv_head in Htr. now symmetry. }
    subst evs. simpl in Hin.
    exact (scan_loop_mail_status hs config self rows (after_query hs s) evs' u b Hrest Hin).
Qed.

End ScanCycle.

(** C4, as stated, fails.  In the in-memory deployment two accounts are
    selected by the cycle; the SMTP server is unreachable for the first
    address of the first.  The cycle's Deferred fails with the transport's
    exception, no call at all is made for the second account and its flag
    is not set, although processing it from the state the cycle ended in
    succeeds. *)
Lemma scan_abandons_remaining_candidates :
  let run :=
    send_renewal_emails InMemory.hs InMemory.config InMemory.self
      (InMemory.start InMemory.first_address_unreachable) in
  fst (InMemory.get_users_expiring_soon InMemory.first_address_unreachable)
    = succeed [InMemory.u1; InMemory.u2] /\
  fst run = Returned (fail (PyException "ConnectError")) /\
  ~ processed "@u2:hs" (trace (snd run)) /\
  mail_status_calls (trace (snd run)) = [] /\
  fst (scan_candidate InMemory.hs InMemory.config InMemory.self InMemory.u2 (snd run))
    = Returned tt.
Proof.
  cbv zeta. repeat split; try (vm_compute; reflexivity).
  unfold processed. vm_compute.
  intros H. repeat (destruct H as [H|H]; [discriminate H|]). exact H.
Qed.

Lemma scan_stops_at_first_failure_witness :
  send_renewal_emails InMemory.hs InMemory.config InMemory.self
    (InMemory.start InMemory.first_address_unreachable)
  = (Returned (fail (PyException "ConnectError")),
     snd (scan_candidate InMemory.hs InMemory.config InMemory.self InMemory.u1
            (after_query InMemory.hs
               (InMemory.start InMemory.first_address_unreachable)))).
Proof.
  refine (proj1 (@scan_stops_at_first_failure _ InMemory.hs InMemory.config
                   InMemory.self
                   (InMemory.start InMemory.first_address_unreachable)
                   [] [InMemory.u2] InMemory.u1
                   (after_query InMemory.hs
                      (InMemory.start InMemory.first_address_unreachable))
                   _ _ _ _ _));
    vm_compute; reflexivity.
Defined.

Lemma notified_only_after_successful_dispatch_witness :
  let s := InMemory.start InMemory.two_accounts in
  exists pre c post s1 s2 ev more,
    [InMemory.u1; InMemory.u2] = (pre ++ c :: post)%list /\
    user_id c = "@u2:hs" /\ true = true /\
    for_each pre (scan_candidate InMemory.hs InMemory.config InMemory.self)
      (after_query InMemory.hs s) = (Returned tt, s1) /\
    yield (send_renewal_email_to_user InMemory.hs InMemory.config InMemory.self
             (user_id c) (expiration_ts_ms c)) s1 = (Returned tt, s2) /\
    ev_call ev = Call_set_renewal_mail_status "@u2:hs" true /\
    trace (snd (yield (send_renewal_emails InMemory.hs InMemory.config InMemory.self) s))
      = (trace s2 ++ ev :: more)%list.
Proof.
  cbv zeta.
  refine (proj2 (@notified_only_after_successful_dispatch _ InMemory.hs
                   InMemory.config InMemory.self
                   (InMemory.start InMemory.two_accounts)
                   [InMemory.u1; InMemory.u2] _)
            (trace (snd (yield (send_renewal_emails InMemory.hs InMemory.config
                                  InMemory.self)
                           (InMemory.start InMemory.two_accounts))))
            "@u2:hs" true _ _).
  - vm_compute. reflexivity.
  - vm_compute. reflexivity.
  - vm_compute. right. left. reflexivity.
Defined.

(** ** Sending to the addresses of one account *)

Section Dispatch.

Variable W : Type.
Variable hs : Collaborators W.
Variable config : Config.
Variable self : email_attrs.

(** One iteration of the dispatch loop: a single [sendmail] call, whose
    message is addressed to [addr] and carries the two parts; the
    iteration raises exactly when that call's Deferred failed. *)
Lemma send_to_address_run (text_part html_part : MIMEText) (addr : string)
    (s : St W) :
  exists args d w1,
    send_to_address hs config self text_part html_part addr s =
    (result d,
     {| world := w1;
        trace := (trace s ++ [{| ev_call := Call_sendmail args;
                                 ev_failure := failure_of d |}])%list |}) /\
    To (msg args) = addr /\
    to_addr args = email_utils_parseaddr hs addr /\
    parts (msg args) = [text_part; html_part].
Proof.
  unfold send_to_address, bind, read, step. simpl.
  destruct (email_utils_make_msgid hs (world s)) as [msgid w0]. simpl.
  rewrite yield_invoke. simpl.
  eexists _, _, _. split; [reflexivity|]. simpl. auto.
Qed.



End Dispatch.



(** ** Processing one account *)

Section OneAccount.

Variable W : Type.
Variable hs : Collaborators W.
Variable config : Config.
Variable self : email_attrs.

(** The display-name block, case by case: the raw identifier is used when
    the store returns no name or when a [StoreError] is raised; any other
    exception leaves the block. *)
Lemma lookup_display_name_run (user : string) (s : St W) :
  lookup_display_name hs user s =
  match UserID_from_string_localpart hs user with
  | Raised e =>
      (if isinstance_StoreError e then Returned user else Raised e, s)
  | Returned localpart =>
      let q := store_get_profile_displayname hs localpart (world s) in
      (match result (fst q) with
       | Returned (Some name) => Returned name
       | Returned None => Returned user
       | Raised e => if isinstance_StoreError e then Returned user else Raised e
       end,
       {| world := snd q;
          trace :=
            (trace s ++
             [ {| ev_call := Call_get_profile_displayname localpart;
                  ev_failure := failure_of (fst q) |} ])%list |})
  end.
Proof.
  unfold lookup_display_name, try_except, bind, lift.
  destruct (UserID_from_string_localpart hs user) as [localpart|e].
  - rewrite yield_invoke. cbv zeta.
    destruct (result (fst (store_get_profile_displayname hs localpart (world s))))
      as [[name|]|e]; try reflexivity.
    destruct (isinstance_StoreError e); reflexivity.
  - destruct (isinstance_StoreError e); reflexivity.
Qed.

(** [send_renewal_email_to_user], step by step: the threepid query, the
    display-name block, token issuance, then the dispatch loop over the
    email addresses with the parts rendered from the three values. *)
Lemma send_renewal_email_to_user_run (user : string) (expiration : Z) (s : St W) :
  yield (send_renewal_email_to_user hs config self user expiration) s =
  match result (fst (store_user_get_threepids hs user (world s))) with
  | Raised e => (Raised e, after_threepids hs user s)
  | Returned tps =>
      match lookup_display_name hs user (after_threepids hs user s) with
      | (Raised e, s2) => (Raised e, s2)
      | (Returned name, s2) =>
          match while_attempts hs 5 user 0 s2 with
          | (Raised e, s3) => (Raised e, s3)
          | (Returned tok, s3) =>
              dispatch hs config self
                (text_part_for config self name expiration tok)
                (html_part_for config self name expiration tok)
                (collect_email_addresses tps) s3
          end
      end
  end.
Proof.
  unfold send_renewal_email_to_user. rewrite yield_inlineCallbacks.
  unfold bind at 1. unfold _get_email_addresses_for_user.
  rewrite yield_inlineCallbacks. unfold bind at 1. rewrite yield_invoke.
  fold (after_threepids hs user s).
  destruct (result (fst (store_user_get_threepids hs user (world s))))
    as [tps|e]; [|reflexivity].
  unfold ret, bind at 1.
  destruct (lookup_display_name hs user (after_threepids hs user s))
    as [[name|e] s2]; [|reflexivity].
  unfold bind at 1. unfold _get_renewal_token. rewrite yield_inlineCallbacks.
  destruct (while_attempts hs 5 user 0 s2) as [[tok|e] s3]; reflexivity.
Qed.

End OneAccount.

Section DisplayName.

Variable W : Type.
Variable hs : Collaborators W.
Variable config : Config.
Variable self : email_attrs.

(** C7, as amended.  When the display-name lookup returns no name or
    raises a [StoreError], the raw account identifier is the display name:
    processing goes on to token issuance and the email parts are rendered
    with the identifier.  Any other exception raised by the lookup is not
    caught: it ends [send_renewal_email_to_user] right after the lookup. *)
Theorem display_name_falls_back_on_StoreError (user : string) (expiration : Z)
    (s : St W) (tps : list threepid) (localpart : string) :
  result (fst (store_user_get_threepids hs user (world s))) = Returned tps ->
  UserID_from_string_localpart hs user = Returned localpart ->
  let s1 := after_threepids hs user s in
  let lookup := result (fst (store_get_profile_displayname hs localpart (world s1))) in
  let s2 := after_profile_lookup hs localpart s1 in
  ((lookup = Returned None \/
    exists code msg, lookup = Raised (StoreError code msg)) ->
   lookup_display_name hs user s1 = (Returned user, s2) /\
   forall tok s3,
     while_attempts hs 5 user 0 s2 = (Returned tok, s3) ->
     yield (send_renewal_email_to_user hs config self user expiration) s =
     dispatch hs config self
       (text_part_for config self user expiration tok)
       (html_part_for config self user expiration tok)
       (collect_email_addresses tps) s3) /\
  (forall e,
      lookup = Raised e -> isinstance_StoreError e = false ->
      yield (send_renewal_email_to_user hs config self user expiration) s
        = (Raised e, s2)).
Proof.
  intros Htps Hlp. cbv zeta. split.
  - intros Hcase.
    assert (Hlook : lookup_display_name hs user (after_threepids hs user s) =
                    (Returned user,
                     after_profile_lookup hs localpart (after_threepids hs user s))).
    { rewrite lookup_display_name_run, Hlp. cbv zeta.
      destruct Hcase as [Hnone|(code & msg & Herr)].
      - rewrite Hnone. reflexivity.
      - rewrite Herr. reflexivity. }
    split; [exact Hlook|].
    intros tok s3 Htok.
    rewrite send_renewal_email_to_user_run, Htps, Hlook, Htok. reflexivity.
  - intros e Herr Hcls.
    rewrite send_renewal_email_to_user_run, Htps, lookup_display_name_run, Hlp.
    cbv zeta. rewrite Herr, Hcls. reflexivity.
Qed.

End DisplayName.

(** C7, as stated, fails.  The profile table cannot be read and the
    database driver raises an exception that is not a [StoreError].
    [send_renewal_email_to_user] fails with that exception; no token is
    written and no message is composed or sent. *)
Lemma other_lookup_failure_is_not_recovered :
  let run :=
    send_renewal_email_to_user InMemory.hs InMemory.config InMemory.self
      "@u1:hs" 1040 (InMemory.start InMemory.profile_backend_down) in
  fst (InMemory.get_profile_displayname "u1" InMemory.profile_backend_down)
    = fail (PyException "OperationalError") /\
  fst run = Returned (fail (PyException "OperationalError")) /\
  token_writes (trace (snd run)) = [] /\
  sendmail_calls (trace (snd run)) = [].
Proof. vm_compute. repeat split; reflexivity. Qed.

(** The profile row of "@u2:hs" holds no name: its identifier is used. *)
Lemma display_name_falls_back_on_StoreError_witness :
  let s1 := after_threepids InMemory.hs "@u2:hs" (InMemory.start InMemory.two_accounts) in
  lookup_display_name InMemory.hs "@u2:hs" s1
  = (Returned "@u2:hs", after_profile_lookup InMemory.hs "u2" s1).
Proof.
  cbv zeta.
  refine (proj1 (proj1 (@display_name_falls_back_on_StoreError _ InMemory.hs
                          InMemory.config InMemory.self "@u2:hs" 1060
                          (InMemory.start InMemory.two_accounts)
                          [{| medium := "email"; address := "c@example.com" |}]
                          "u2" _ _) _)).
  - vm_compute. reflexivity.
  - vm_compute. reflexivity.
  - left. vm_compute. reflexivity.
Defined.

(** ** Accounts without an email address *)

(** The loop of [_get_email_addresses_for_user] keeps the addresses of the
    email threepids, in order. *)
Lemma collect_email_addresses_filter (tps : list threepid) :
  collect_email_addresses tps =
  map address (filter (fun tp => String.eqb (medium tp) "email") tps).
Proof.
  unfold collect_email_addresses.
  assert (H : forall acc,
             fold_left
               (fun addresses tp =>
                  if String.eqb (medium tp) "email"
                  then (addresses ++ [address tp])%list else addresses) tps acc
             = (acc ++ map address
                         (filter (fun tp => String.eqb (medium tp) "email") tps))%list).
  { induction tps as [|tp tps IH]; intros acc; simpl.
    - now rewrite app_nil_r.
    - rewrite IH. destruct (String.eqb (medium tp) "email"); simpl.
      + rewrite <- app_assoc. reflexivity.
      + reflexivity. }
  apply (H []).
Qed.

Lemma collect_email_addresses_none (tps : list threepid) :
  (forall tp, In tp tps -> medium tp <> "email") ->
  collect_email_addresses tps = [].
Proof.
  intros Hno. rewrite collect_email_addresses_filter.
  induction tps as [|tp tps IH]; simpl; [reflexivity|].
  destruct (String.eqb_spec (medium tp) "email") as [Heq|Hne].
  - exfalso. apply (Hno tp); [now left | exact Heq].
  - apply IH. intros tp' Hin. apply Hno. now right.
Qed.

Section NoAddress.

Variable W : Type.
Variable hs : Collaborators W.
Variable config : Config.
Variable self : email_attrs.

Lemma lookup_makes_no_sendmail_call (user : string) (s : St W) :
  exists evs,
    trace (snd (lookup_display_name hs user s)) = (trace s ++ evs)%list /\
    sendmail_calls evs = [] /\ mail_status_calls evs = [].
Proof.
  destruct (@emits_lookup_display_name W
              (fun c => negb (is_sendmail_call c) && negb (is_mail_status_call c))
              hs user ltac:(reflexivity) s) as (evs & Htr & Hall).
  exists evs. split; [exact Htr|].
  split; [apply sendmail_calls_none | apply mail_status_calls_none].
  - apply forallb_forall. intros e He.
    pose proof (proj1 (forallb_forall _ _) Hall e He) as Hp.
    apply andb_prop in Hp. tauto.
  - apply forallb_forall. intros e He.
    pose proof (proj1 (forallb_forall _ _) Hall e He) as Hp.
    apply andb_prop in Hp. tauto.
Qed.

Lemma issuance_makes_no_sendmail_call (user : string) (s : St W) :
  exists evs,
    trace (snd (while_attempts hs 5 user 0 s)) = (trace s ++ evs)%list /\
    sendmail_calls evs = [] /\ mail_status_calls evs = [].
Proof.
  destruct (@emits_while_attempts W
              (fun c => negb (is_sendmail_call c) && negb (is_mail_status_call c))
              hs 5%nat user 0 ltac:(reflexivity) ltac:(reflexivity) s)
    as (evs & Htr & Hall).
  exists evs. split; [exact Htr|].
  split; [apply sendmail_calls_none | apply mail_status_calls_none].
  - apply forallb_forall. intros e He.
    pose proof (proj1 (forallb_forall _ _) Hall e He) as Hp.
    apply andb_prop in Hp. tauto.
  - apply forallb_forall. intros e He.
    pose proof (proj1 (forallb_forall _ _) Hall e He) as Hp.
    apply andb_prop in Hp. tauto.
Qed.

(** With no email address, [send_renewal_email_to_user] is its first three
    steps: whatever they end with, nothing is handed to the transport. *)
Lemma send_without_addresses (user : string) (expiration : Z) (s : St W)
    (tps : list threepid) :
  result (fst (store_user_get_threepids hs user (world s))) = Returned tps ->
  collect_email_addresses tps = [] ->
  exists evs,
    trace (snd (yield (send_renewal_email_to_user hs config self user expiration) s))
      = (trace s ++ evs)%list /\
    sendmail_calls evs = [] /\ mail_status_calls evs = [].
Proof.
  intros Htps Hnone.
  rewrite send_renewal_email_to_user_run, Htps, Hnone.
  destruct (lookup_makes_no_sendmail_call user (after_threepids hs user s))
    as (evs2 & Htr2 & Hs2 & Hm2).
  destruct (lookup_display_name hs user (after_threepids hs user s))
    as [[name|e] s2]; simpl in Htr2.
  - destruct (issuance_makes_no_sendmail_call user s2) as (evs3 & Htr3 & Hs3 & Hm3).
    destruct (while_attempts hs 5 user 0 s2) as [[tok|e] s3]; simpl in Htr3;
      simpl; rewrite Htr3, Htr2; unfold after_threepids; simpl;
      rewrite <- !app_assoc; eexists; (split; [reflexivity|]);
      simpl; rewrite !sendmail_calls_app, !mail_status_calls_app, Hs2, Hs3, Hm2, Hm3;
      auto.
  - simpl. rewrite Htr2. unfold after_threepids. simpl.
    rewrite <- !app_assoc. eexists. split; [reflexivity|].
    simpl. rewrite Hs2, Hm2. auto.
Qed.

(** C8.  For an account none of whose threepids is an email address, the
    resolved address list is empty; the dispatch loop over it returns at
    once, in the state it started in; the whole of
    [send_renewal_email_to_user] makes no [sendmail] call; and when the
    display-name block and token issuance have not raised, it completes
    without error in the state token issuance left. *)
Theorem no_addresses_nothing_sent (user : string) (expiration : Z) (s : St W)
    (tps : list threepid) :
  result (fst (store_user_get_threepids hs user (world s))) = Returned tps ->
  (forall tp, In tp tps -> medium tp <> "email") ->
  collect_email_addresses tps = [] /\
  (forall text_part html_part s3,
      dispatch hs config self text_part html_part (collect_email_addresses tps) s3
        = (Returned tt, s3)) /\
  (exists evs,
      trace (snd (yield (send_renewal_email_to_user hs config self user expiration) s))
        = (trace s ++ evs)%list /\
      sendmail_calls evs = []) /\
  (forall name s2 tok s3,
      lookup_display_name hs user (after_threepids hs user s) = (Returned name, s2) ->
      while_attempts hs 5 user 0 s2 = (Returned tok, s3) ->
      yield (send_renewal_email_to_user hs config self user expiration) s
        = (Returned tt, s3)).
Proof.
  intros Htps Hno.
  pose proof (collect_email_addresses_none tps Hno) as Hnone.
  split; [exact Hnone|]. split; [|split].
  - intros text_part html_part s3. rewrite Hnone. reflexivity.
  - destruct (send_without_addresses user expiration s Htps Hnone)
      as (evs & Htr & Hs & _).
    exists evs. auto.
  - intros name s2 tok s3 Hname Htok.
    rewrite send_renewal_email_to_user_run, Htps, Hname, Htok, Hnone.
    reflexivity.
Qed.


End NoAddress.

(** "@u1:hs" has a phone number only: nothing is sent and the operation
    completes. *)
Lemma no_addresses_nothing_sent_witness :
  let s := InMemory.start InMemory.no_email_address in
  let s2 := snd (lookup_display_name InMemory.hs "@u1:hs"
                   (after_threepids InMemory.hs "@u1:hs" s)) in
  let s3 := snd (while_attempts InMemory.hs 5 "@u1:hs" 0 s2) in
  yield (send_renewal_email_to_user InMemory.hs InMemory.config InMemory.self
           "@u1:hs" 1040) s
  = (Returned tt, s3).
Proof.
  cbv zeta.
  refine (proj2 (proj2 (proj2
            (@no_addresses_nothing_sent _ InMemory.hs InMemory.config InMemory.self
               "@u1:hs" 1040 (InMemory.start InMemory.no_email_address)
               [{| medium := "msisdn"; address := "447700900000" |}] _ _)))
            "Alice" _ "fresh1" _ _ _).
  - vm_compute. reflexivity.
  - intros tp [<-|[]]. simpl. discriminate.
  - vm_compute. reflexivity.
  - vm_compute. reflexivity.
Defined.


(** ** Construction *)

Section Init.

Variable W : Type.
Variable hs : Collaborators W.
Variable config : Config.

(** C10.  If substituting the application name into the subject template
    or into the from template raises, whatever the exception, both strings
    are the configured templates as they are, and the [try] block itself
    raises nothing.  Construction goes on: when the templates load, the
    handler is built with the two bare strings, the sender address parsed
    from the bare from-string, and the scan registered every 30 minutes. *)
Theorem init_falls_back_to_bare_strings (s : St W) (e : exn) :
  str_mod_app hs (renew_email_subject config) (email_app_name config) = Raised e \/
  str_mod_app hs (email_notif_from config) (email_app_name config) = Raised e ->
  init_subject_and_from hs config s
    = (Returned (renew_email_subject config, email_notif_from config), s) /\
  (renew_by_email_enabled config = true ->
   forall template_html template_text,
     mailer_load_jinja2_templates hs config
       (email_expiry_template_html config) (email_expiry_template_text config)
       = Returned (template_html, template_text) ->
     __init__ hs config s =
     (Returned
        {| self_config := config;
           self_email :=
             Some {| _subject := renew_email_subject config;
                     _from_string := email_notif_from config;
                     _raw_from := email_utils_parseaddr hs (email_notif_from config);
                     _template_html := template_html;
                     _template_text := template_text |} |},
      {| world := clock_looping_call hs (30 * 60 * 1000) (world s);
         trace := (trace s ++ [{| ev_call := Call_looping_call (30 * 60 * 1000);
                                  ev_failure := None |}])%list |})).
Proof.
  intros Hraise.
  assert (Hblock : init_subject_and_from hs config s
                   = (Returned (renew_email_subject config, email_notif_from config), s)).
  { unfold init_subject_and_from, try_except, bind, lift, ret, isinstance_Exception.
    destruct Hraise as [Hs|Hf].
    - rewrite Hs. reflexivity.
    - destruct (str_mod_app hs (renew_email_subject config) (email_app_name config));
        [rewrite Hf|]; reflexivity. }
  split; [exact Hblock|].
  intros Hen template_html template_text Hload.
  unfold __init__. rewrite Hen.
  unfold bind at 1. rewrite Hblock.
  unfold bind at 1, lift. simpl fst. simpl snd. rewrite Hload.
  reflexivity.
Qed.

End Init.

(** The subject template is well formed but the from template names an
    unknown key: the subject falls back as well. *)
Lemma init_falls_back_to_bare_strings_witness :
  InMemory.mod_app "Renew your %(app)s account" "Matrix"
    = Returned "Renew your Matrix account" /\
  InMemory.mod_app "%(server_name)s <noreply@example.com>" "Matrix"
    = Raised InMemory.KeyError /\
  init_subject_and_from InMemory.hs InMemory.unknown_key_config
    (InMemory.start InMemory.two_accounts)
  = (Returned ("Renew your %(app)s account",
               "%(server_name)s <noreply@example.com>"),
     InMemory.start InMemory.two_accounts).
Proof.
  split; [vm_compute; reflexivity|]. split; [vm_compute; reflexivity|].
  refine (proj1 (@init_falls_back_to_bare_strings _ InMemory.hs
                   InMemory.unknown_key_config
                   (InMemory.start InMemory.two_accounts)
                   InMemory.KeyError _)).
  right. vm_compute. reflexivity.
Defined.

(** ** Runs of the in-memory deployment *)

(** [__init__] on the sample configuration computes the attributes used in
    the runs above. *)
Example init_sample_config :
  fst (__init__ InMemory.hs InMemory.config (InMemory.start InMemory.two_accounts))
  = Returned {| self_config := InMemory.config;
                self_email := Some InMemory.self |}.
Proof. vm_compute. reflexivity. Qed.

(** The random source keeps producing a token that is already held: five
    generations, five refused writes, then the exhaustion error. *)
Example issuance_exhausted_by_collisions :
  let run :=
    yield (_get_renewal_token InMemory.hs "@u2:hs")
      (InMemory.start InMemory.always_colliding) in
  fst run = Raised exhausted /\
  generations (trace (snd run)) = 5%nat /\
  token_writes (trace (snd run))
  = repeat ("@u2:hs", "tok1", Some InMemory.conflict) 5.
Proof. vm_compute. repeat split; reflexivity. Qed.

(** Two collisions, then a free token: the third token is returned. *)
Example issuance_retries_after_collision :
  let run :=
    yield (_get_renewal_token InMemory.hs "@u2:hs")
      (InMemory.start InMemory.colliding_twice) in
  fst run = Returned "fresh" /\
  generations (trace (snd run)) = 3%nat.
Proof. vm_compute. repeat split; reflexivity. Qed.

(** A cycle over the two sample accounts: one token each, one message per
    email address, both flags set. *)
Example scan_two_accounts :
  let run :=
    send_renewal_emails InMemory.hs InMemory.config InMemory.self
      (InMemory.start InMemory.two_accounts) in
  fst run = Returned (succeed tt) /\
  token_writes (trace (snd run))
  = [("@u1:hs", "fresh1", None); ("@u2:hs", "fresh2", None)] /\
  deliveries (trace (snd run))
  = [("a@example.com", None); ("b@example.com", None); ("c@example.com", None)] /\
  mail_status_calls (trace (snd run)) = [("@u1:hs", true); ("@u2:hs", true)] /\
  map InMemory.acc_email_sent (InMemory.accounts (world (snd run))) = [true; true].
Proof. vm_compute. repeat split; reflexivity. Qed.

(** * Further properties of the handler *)

(** ** Construction *)

Section InitOutcome.

Variable W : Type.
Variable hs : Collaborators W.
Variable config : Config.

(** [__init__] raises only when renewal by email is enabled and loading
    the templates raises, with that exception and before any looping call
    is registered.  When it returns with renewal by email disabled, it has
    set no email attribute and made no call.  When it returns with renewal
    by email enabled, the subject and the from-string are either both the
    substituted templates or both the bare ones, the sender address is
    parsed from the from-string in use, and exactly one looping call was
    registered, every 1800000 ms. *)
Theorem init_outcome (s : St W) :
  let load :=
    mailer_load_jinja2_templates hs config
      (email_expiry_template_html config) (email_expiry_template_text config) in
  let subject := str_mod_app hs (renew_email_subject config) (email_app_name config) in
  let from_string := str_mod_app hs (email_notif_from config) (email_app_name config) in
  match fst (__init__ hs config s) with
  | Raised e =>
      renew_by_email_enabled config = true /\
      load = Raised e /\
      snd (__init__ hs config s) = s
  | Returned h =>
      self_config h = config /\
      match self_email h with
      | None =>
          renew_by_email_enabled config = false /\
          snd (__init__ hs config s) = s
      | Some a =>
          renew_by_email_enabled config = true /\
          ((subject = Returned (_subject a) /\ from_string = Returned (_from_string a)) \/
           ((exists e, subject = Raised e \/ from_string = Raised e) /\
            _subject a = renew_email_subject config /\
            _from_string a = email_notif_from config)) /\
          _raw_from a = email_utils_parseaddr hs (_from_string a) /\
          load = Returned (_template_html a, _template_text a) /\
          snd (__init__ hs config s) =
            {| world := clock_looping_call hs 1800000 (world s);
               trace := (trace s ++ [{| ev_call := Call_looping_call 1800000;
                                        ev_failure := None |}])%list |}
      end
  end.
Proof.
  cbv zeta.
  destruct (renew_by_email_enabled config) eqn:Hen.
  2: { unfold __init__. rewrite Hen. simpl. auto. }
  assert (Hblock :
    exists sf, init_subject_and_from hs config s = (Returned sf, s) /\
      ((str_mod_app hs (renew_email_subject config) (email_app_name config)
          = Returned (fst sf) /\
        str_mod_app hs (email_notif_from config) (email_app_name config)
          = Returned (snd sf)) \/
       ((exists e,
            str_mod_app hs (renew_email_subject config) (email_app_name config)
              = Raised e \/
            str_mod_app hs (email_notif_from config) (email_app_name config)
              = Raised e) /\
        fst sf = renew_email_subject config /\
        snd sf = email_notif_from config))).
  { unfold init_subject_and_from, try_except, bind, lift, ret, isinstance_Exception.
    destruct (str_mod_app hs (renew_email_subject config) (email_app_name config))
      as [subject|e].
    - destruct (str_mod_app hs (email_notif_from config) (email_app_name config))
        as [from_string|e].
      + eexists. split; [reflexivity|]. left. auto.
      + eexists. split; [reflexivity|]. right. simpl. eauto.
    - eexists. split; [reflexivity|]. right. simpl. eauto. }
  destruct Hblock as (sf & Hrun & Hsf).
  destruct (mailer_load_jinja2_templates hs config
              (email_expiry_template_html config)
              (email_expiry_template_text config)) as [[th tt']|e] eqn:Hload.
  - assert (Hinit :
      __init__ hs config s =
      (Returned
         {| self_config := config;
            self_email :=
              Some {| _subject := fst sf;
                      _from_string := snd sf;
                      _raw_from := email_utils_parseaddr hs (snd sf);
                      _template_html := th;
                      _template_text := tt' |} |},
       {| world := clock_looping_call hs 1800000 (world s);
          trace := (trace s ++ [{| ev_call := Call_looping_call 1800000;
                                   ev_failure := None |}])%list |})).
    { unfold __init__. rewrite Hen. unfold bind at 1. rewrite Hrun.
      unfold bind at 1, lift. rewrite Hload. reflexivity. }
    rewrite Hinit. simpl. repeat split; auto.
  - assert (Hinit : __init__ hs config s = (Raised e, s)).
    { unfold __init__. rewrite Hen. unfold bind at 1. rewrite Hrun.
      unfold bind at 1, lift. rewrite Hload. reflexivity. }
    rewrite Hinit. simpl. auto.
Qed.

End InitOutcome.

(** ** Resolving addresses and issuing tokens *)

Section AddressesAndTokens.

Variable W : Type.
Variable hs : Collaborators W.
Variable user : string.

(** [_get_email_addresses_for_user] makes one store call.  Its result is
    the addresses of the threepids whose medium is "email", in the order
    the store returned them and with repetitions kept; a failure of the
    store call is the failure of the method. *)
Theorem email_addresses_are_email_threepids (s : St W) :
  yield (_get_email_addresses_for_user hs user) s =
  (match result (fst (store_user_get_threepids hs user (world s))) with
   | Returned tps =>
       Returned (map address
                   (filter (fun tp => String.eqb (medium tp) "email") tps))
   | Raised e => Raised e
   end,
   after_threepids hs user s).
Proof.
  unfold _get_email_addresses_for_user. rewrite yield_inlineCallbacks.
  unfold bind. rewrite yield_invoke. fold (after_threepids hs user s).
  destruct (result (fst (store_user_get_threepids hs user (world s))))
    as [tps|e]; [|reflexivity].
  unfold ret. rewrite collect_email_addresses_filter. reflexivity.
Qed.

(** Token issuance ends in one of three ways.  It returns a token, whose
    write the store accepted after refusing every earlier one.  It raises
    the exhaustion error, after exactly 5 generations whose writes were
    all refused with a [StoreError].  Or it raises an exception that is
    not a [StoreError]: the one the last write failed with, which is not
    retried. *)
Theorem issuance_outcomes (s : St W) :
  exists evs,
    trace (snd (yield (_get_renewal_token hs user) s)) = (trace s ++ evs)%list /\
    match fst (yield (_get_renewal_token hs user) s) with
    | Returned tok =>
        exists before,
          token_writes evs = (before ++ [(user, tok, None)])%list /\
          Forall refused before
    | Raised e =>
        (e = exhausted /\ generations evs = 5%nat /\
         Forall refused (token_writes evs)) \/
        (isinstance_StoreError e = false /\
         exists before tok,
           token_writes evs = (before ++ [(user, tok, Some e)])%list /\
           Forall refused before)
    end.
Proof.
  unfold _get_renewal_token. rewrite yield_inlineCallbacks.
  exact (while_attempts_ends hs user 5 0 s eq_refl).
Qed.

Lemma while_attempts_replay (budget : nat) (attempts : Z) (s : St W) :
  exists evs,
    trace (snd (while_attempts hs budget user attempts s))
      = (trace s ++ evs)%list /\
    forallb (fun e => issuance_call user (ev_call e)) evs = true /\
    calls evs = attempt_calls (token_writes evs) /\
    world (snd (while_attempts hs budget user attempts s))
      = Nat.iter (generations evs) (attempt_world hs user) (world s).
Proof.
  revert attempts s.
  induction budget as [|budget IH]; intros attempts s;
    rewrite while_attempts_eq; destruct (attempts <? 5);
    try solve [exists []; simpl; rewrite app_nil_r; auto].
  unfold try_except. rewrite try_new_token_run.
  set (gen := stringutils_random_string hs 32 (world s)).
  set (write := store_set_renewal_token_for_user hs user (fst gen) (snd gen)).
  destruct (fst write) as [[[]|e]] eqn:Hw; simpl.
  - eexists. split; [reflexivity|]. simpl. rewrite String.eqb_refl.
    repeat split; reflexivity.
  - destruct (isinstance_StoreError e).
    + match goal with
      | |- context [while_attempts hs budget user (attempts + 1) ?s1] =>
          destruct (IH (attempts + 1) s1) as (evs & Htr & Hall & Hcalls & Hworld)
      end.
      simpl in Htr, Hworld.
      eexists. split; [rewrite Htr, <- app_assoc; reflexivity|].
      split; [|split].
      * simpl. rewrite String.eqb_refl. exact Hall.
      * unfold calls in Hcalls. unfold calls, attempt_calls. simpl.
        rewrite Hcalls. reflexivity.
      * rewrite Hworld. simpl generations. rewrite Nat.iter_succ_r. reflexivity.
    + eexists. split; [reflexivity|]. simpl. rewrite String.eqb_refl.
      repeat split; reflexivity.
Qed.

(** Token issuance for a user only ever asks the generator for strings of
    32 characters and only ever writes tokens for that user.  Its calls
    are exactly one generation followed by the write of the generated
    token, pass after pass; and the world it leaves is the one those
    passes produce, so nothing else has acted on the store, the transport
    or the random source. *)
Theorem issuance_calls_only_generator_and_token_store (s : St W) :
  exists evs,
    trace (snd (yield (_get_renewal_token hs user) s)) = (trace s ++ evs)%list /\
    forallb (fun e => issuance_call user (ev_call e)) evs = true /\
    calls evs = attempt_calls (token_writes evs) /\
    world (snd (yield (_get_renewal_token hs user) s))
      = Nat.iter (generations evs) (attempt_world hs user) (world s).
Proof.
  unfold _get_renewal_token. rewrite yield_inlineCallbacks.
  apply while_attempts_replay.
Qed.

End AddressesAndTokens.

(** ** The renewal link *)

Lemma append_cancel_prefix (p a b : string) :
  (p ++ a)%string = (p ++ b)%string -> a = b.
Proof.
  induction p as [|c p IH]; simpl; intros H.
  - exact H.
  - inversion H. auto.
Qed.

(** Under one configuration, two renewal links are equal only if they
    carry the same token. *)
Theorem renewal_url_injective (config : Config) (t1 t2 : string) :
  renewal_url config t1 = renewal_url config t2 -> t1 = t2.
Proof.
  unfold renewal_url. intros H.
  apply append_cancel_prefix in H. apply append_cancel_prefix in H. exact H.
Qed.

Lemma renewal_url_injective_witness :
  renewal_url InMemory.config "fresh1" = renewal_url InMemory.config "fresh1" /\
  "fresh1" = "fresh1".
Proof.
  split; [reflexivity|].
  apply (@renewal_url_injective InMemory.config "fresh1" "fresh1"). reflexivity.
Defined.

(** ** The messages handed to the transport *)

Section Messages.

Variable W : Type.
Variable hs : Collaborators W.
Variable config : Config.
Variable self : email_attrs.

Lemma send_to_address_composed (text_part html_part : MIMEText)
    (addresses : list string) (addr : string) (s : St W) :
  In addr addresses ->
  exists args d w1,
    send_to_address hs config self text_part html_part addr s =
    (result d,
     {| world := w1;
        trace := (trace s ++ [{| ev_call := Call_sendmail args;
                                 ev_failure := failure_of d |}])%list |}) /\
    composed_for config self (email_utils_parseaddr hs) text_part html_part
      addresses args.
Proof.
  intros Hin. unfold send_to_address, bind, read, step. simpl.
  destruct (email_utils_make_msgid hs (world s)) as [msgid w0]. simpl.
  rewrite yield_invoke. simpl.
  eexists _, _, _. split; [reflexivity|].
  unfold composed_for. simpl. repeat split; auto.
Qed.

Lemma dispatch_composed_within (text_part html_part : MIMEText)
    (all addresses : list string) :
  (forall a, In a addresses -> In a all) ->
  forall s, exists evs,
    trace (snd (dispatch hs config self text_part html_part addresses s))
      = (trace s ++ evs)%list /\
    List.length (sendmail_calls evs) = List.length evs /\
    Forall (fun c => composed_for config self (email_utils_parseaddr hs)
                       text_part html_part all (fst c))
      (sendmail_calls evs).
Proof.
  unfold dispatch.
  induction addresses as [|a addresses IH]; intros Hsub s.
  - exists []. simpl. rewrite app_nil_r. repeat split; constructor.
  - rewrite for_each_cons.
    destruct (send_to_address_composed text_part html_part all a s
                (Hsub a (or_introl eq_refl)))
      as (args & [r] & w1 & Hsend & Hcomp).
    rewrite Hsend. simpl.
    destruct r as [[]|e].
    + match goal with
      | |- context [for_each addresses _ ?s1] =>
          destruct (IH (fun a' H => Hsub a' (or_intror H)) s1)
            as (evs & Htr & Hlen & Hall)
      end.
      simpl in Htr.
      eexists. split; [rewrite Htr, <- app_assoc; reflexivity|].
      simpl. split; [now rewrite Hlen|]. constructor; assumption.
    + eexists. split; [reflexivity|]. simpl.
      split; [reflexivity|]. constructor; [assumption|constructor].
Qed.

(** Every call the dispatch loop makes is a [sendmail] call, and every one
    of them is composed the same way: SMTP host, port, credentials and
    transport-security flag from the configuration, authentication
    required exactly when an SMTP user is configured, envelope sender
    [_raw_from], envelope recipient parsed from the To header, which is
    one of the account's addresses, Subject and From from [self], and a
    multipart/alternative body with the plain-text part first and the HTML
    part second. *)
Theorem dispatch_messages_composed (text_part html_part : MIMEText)
    (addresses : list string) (s : St W) :
  exists evs,
    trace (snd (dispatch hs config self text_part html_part addresses s))
      = (trace s ++ evs)%list /\
    List.length (sendmail_calls evs) = List.length evs /\
    Forall (fun c => composed_for config self (email_utils_parseaddr hs)
                       text_part html_part addresses (fst c))
      (sendmail_calls evs).
Proof. apply dispatch_composed_within. auto. Qed.

(** The dispatch loop sends to the addresses in order, one message each.
    When it completes, every address was sent to successfully.  When it
    raises, the addresses before the failing one were sent to
    successfully, the failing one is the last call, with the exception
    that is raised, and the addresses after it got no call. *)
Theorem dispatch_sends_in_order (text_part html_part : MIMEText)
    (addresses : list string) (s : St W) :
  exists evs,
    trace (snd (dispatch hs config self text_part html_part addresses s))
      = (trace s ++ evs)%list /\
    match fst (dispatch hs config self text_part html_part addresses s) with
    | Returned _ => deliveries evs = map (fun a => (a, None)) addresses
    | Raised e =>
        exists pre a post,
          addresses = (pre ++ a :: post)%list /\
          deliveries evs = (map (fun a => (a, None)) pre ++ [(a, Some e)])%list
    end.
Proof.
  unfold dispatch. revert s.
  induction addresses as [|a addresses IH]; intros s.
  - exists []. simpl. now rewrite app_nil_r.
  - rewrite for_each_cons.
    destruct (send_to_address_run hs config self text_part html_part a s)
      as (args & [r] & w1 & Hsend & Hto & _ & _).
    rewrite Hsend. simpl.
    destruct r as [[]|e].
    + match goal with
      | |- context [for_each addresses _ ?s1] =>
          destruct (IH s1) as (evs & Htr & Hres)
      end.
      simpl in Htr.
      eexists. split; [rewrite Htr, <- app_assoc; reflexivity|].
      unfold deliveries in *. simpl. rewrite Hto.
      destruct (fst (for_each addresses
                       (send_to_address hs config self text_part html_part) _))
        as [[]|e].
      * now rewrite Hres.
      * destruct Hres as (pre & a' & post & Haddr & Hdel).
        exists (a :: pre), a', post. split.
        -- now rewrite Haddr.
        -- simpl. now rewrite Hdel.
    + eexists. split; [reflexivity|].
      exists [], a, addresses. split; [reflexivity|].
      unfold deliveries. simpl. now rewrite Hto.
Qed.

(** No renewal email without a token: if [send_renewal_email_to_user]
    makes any [sendmail] call, its calls split in two.  The first part
    holds no [sendmail] call and holds the write of a token for that user
    which the store accepted.  The second part consists of [sendmail]
    calls only, and every message in it carries the two parts rendered
    with the renewal link of that token.  So the accepted write comes
    before every message. *)
Theorem no_email_without_token (user : string) (expiration : Z) (s : St W) :
  exists evs,
    trace (snd (yield (send_renewal_email_to_user hs config self user expiration) s))
      = (trace s ++ evs)%list /\
    (sendmail_calls evs = [] \/
     exists name tok before after,
       evs = (before ++ after)%list /\
       sendmail_calls before = [] /\
       In (user, tok, None) (token_writes before) /\
       List.length (sendmail_calls after) = List.length after /\
       Forall (fun c =>
                 parts (msg (fst c)) =
                 [text_part_for config self name expiration tok;
                  html_part_for config self name expiration tok])
         (sendmail_calls after)).
Proof.
  rewrite send_renewal_email_to_user_run.
  destruct (result (fst (store_user_get_threepids hs user (world s))))
    as [tps|e].
  2: { eexists. split; [reflexivity|]. left. reflexivity. }
  destruct (lookup_makes_no_sendmail_call hs user (after_threepids hs user s))
    as (evs2 & Htr2 & Hs2 & _).
  destruct (lookup_display_name hs user (after_threepids hs user s))
    as [[name|e] s2]; simpl in Htr2.
  2: { simpl. rewrite Htr2. unfold after_threepids. simpl.
       rewrite <- app_assoc. eexists. split; [reflexivity|].
       left. simpl. exact Hs2. }
  destruct (issuance_makes_no_sendmail_call hs user s2) as (evs3 & Htr3 & Hs3 & _).
  pose proof (while_attempts_run hs user 5 0 s2 eq_refl) as Hrun.
  destruct Hrun as (evs3' & Htr3' & _ & _ & Hres).
  rewrite Htr3 in Htr3'. apply app_inv_head in Htr3'. subst evs3'.
  destruct (while_attempts hs 5 user 0 s2) as [[tok|e] s3]; simpl in Htr3, Hres.
  2: { simpl. rewrite Htr3, Htr2. unfold after_threepids. simpl.
       rewrite <- !app_assoc. eexists. split; [reflexivity|].
       left. simpl. rewrite sendmail_calls_app, Hs2, Hs3. reflexivity. }
  destruct Hres as (before & Hbefore & _).
  destruct (dispatch_messages_composed
              (text_part_for config self name expiration tok)
              (html_part_for config self name expiration tok)
              (collect_email_addresses tps) s3) as (evs4 & Htr4 & Hlen4 & Hall).
  rewrite Htr4, Htr3, Htr2. unfold after_threepids. simpl.
  exists (({| ev_call := Call_user_get_threepids user;
              ev_failure :=
                failure_of (fst (store_user_get_threepids hs user (world s))) |}
           :: evs2 ++ evs3) ++ evs4)%list.
  split.
  { rewrite <- !app_assoc. simpl. rewrite <- !app_assoc. reflexivity. }
  right. exists name, tok. eexists _, _. split; [reflexivity|].
  split; [|split; [|split]].
  - simpl. rewrite sendmail_calls_app, Hs2, Hs3. reflexivity.
  - simpl. rewrite token_writes_app, Hbefore.
    apply in_or_app. right. apply in_or_app. right. now left.
  - exact Hlen4.
  - eapply Forall_impl; [|exact Hall].
    intros c Hc. unfold composed_for in Hc. tauto.
Qed.

End Messages.

(** ** What a scan cycle does and does not do *)

Section CycleShape.

Variable W : Type.
Variable hs : Collaborators W.
Variable config : Config.
Variable self : email_attrs.

Lemma scan_loop_marks_prefix (rows : list expiring_user) :
  forall s, exists evs n,
    trace (snd (for_each rows (scan_candidate hs config self) s))
      = (trace s ++ evs)%list /\
    (n <= List.length rows)%nat /\
    mail_status_calls evs = map (fun c => (user_id c, true)) (firstn n rows) /\
    ((fst (for_each rows (scan_candidate hs config self) s) = Returned tt /\
      n = List.length rows) \/
     exists e, fst (for_each rows (scan_candidate hs config self) s) = Raised e).
Proof.
  induction rows as [|c rows IH]; intros s.
  - exists [], O. simpl. rewrite app_nil_r. repeat split; auto.
  - rewrite for_each_cons, scan_candidate_run.
    destruct (send_makes_no_mail_status_call hs config self c s)
      as (devs & Hd & Hnone).
    destruct (yield (send_renewal_email_to_user hs config self (user_id c)
                       (expiration_ts_ms c)) s) as [[[]|e] s2]; simpl in Hd.
    + rewrite yield_invoke.
      destruct (result (fst (store_set_renewal_mail_status hs (user_id c) true
                               (world s2)))) as [[]|e].
      * match goal with
        | |- context [for_each rows _ ?s3] =>
            destruct (IH s3) as (evs & n & Htr & Hn & Hcalls & Hres)
        end.
        simpl in Htr.
        eexists _, (S n). split.
        { rewrite Htr, Hd, <- !app_assoc. reflexivity. }
        split; [simpl; lia|]. split.
        { rewrite mail_status_calls_app, Hnone. simpl. now rewrite Hcalls. }
        destruct Hres as [[Hok Hlen]|Herr]; [left|right]; auto.
        split; [exact Hok | simpl; now rewrite Hlen].
      * eexists _, 1%nat. simpl. split.
        { rewrite Hd, <- app_assoc. reflexivity. }
        split; [lia|]. split.
        { rewrite mail_status_calls_app, Hnone. reflexivity. }
        right. eauto.
    + exists devs, O. simpl. repeat split; auto; [lia|]. right. eauto.
Qed.

(** A cycle sets the flag of the candidates in the order the store
    returned them, each with [email_sent=True]: the
    [set_renewal_mail_status] calls of a cycle are those of a leading
    segment of the candidate list, and of the whole list when the cycle
    completes.  When the store query itself fails, the cycle fails with
    that exception and makes no further call. *)
Theorem cycle_marks_candidates_in_order (s : St W) :
  exists evs,
    trace (snd (yield (send_renewal_emails hs config self) s))
      = (trace s ++ evs)%list /\
    match result (fst (store_get_users_expiring_soon hs (world s))) with
    | Raised e =>
        fst (yield (send_renewal_emails hs config self) s) = Raised e /\
        calls evs = [Call_get_users_expiring_soon]
    | Returned rows =>
        exists n,
          (n <= List.length rows)%nat /\
          mail_status_calls evs
            = map (fun c => (user_id c, true)) (firstn n rows) /\
          ((fst (yield (send_renewal_emails hs config self) s) = Returned tt /\
            n = List.length rows) \/
           exists e,
             fst (yield (send_renewal_emails hs config self) s) = Raised e)
    end.
Proof.
  rewrite send_renewal_emails_run.
  destruct (result (fst (store_get_users_expiring_soon hs (world s))))
    as [rows|e].
  - destruct (scan_loop_marks_prefix rows (after_query hs s))
      as (evs & n & Htr & Hn & Hcalls & Hres).
    unfold after_query in Htr at 2. simpl in Htr.
    rewrite <- app_assoc in Htr.
    eexists. split; [exact Htr|].
    exists n. simpl. auto.
  - eexists. split; [reflexivity|]. simpl. auto.
Qed.

(** A scan cycle never clears a flag and never renews an account: the only
    calls it makes are the expiring-users query, threepid and display-name
    lookups, [random_string(32)], token writes, [sendmail], and
    [set_renewal_mail_status] with [email_sent=True]. *)
Theorem cycle_calls (s : St W) :
  exists evs,
    trace (snd (yield (send_renewal_emails hs config self) s))
      = (trace s ++ evs)%list /\
    forallb (fun e => scan_call (ev_call e)) evs = true.
Proof.
  apply (@emits_yield W scan_call unit (send_renewal_emails hs config self)).
  unfold send_renewal_emails. apply emits_inlineCallbacks.
  apply emits_bind; [apply emits_yield, emits_invoke; reflexivity|].
  intros rows. apply emits_for_each. intros c. unfold scan_candidate.
  apply emits_bind.
  - apply emits_yield, emits_send_renewal_email_to_user; reflexivity.
  - intros _. apply emits_yield, emits_invoke. reflexivity.
Qed.

(** When the profile holds a display name, that name is the one the email
    parts are rendered with. *)
Theorem display_name_from_profile (user : string) (expiration : Z) (s : St W)
    (tps : list threepid) (localpart name tok : string) (s3 : St W) :
  result (fst (store_user_get_threepids hs user (world s))) = Returned tps ->
  UserID_from_string_localpart hs user = Returned localpart ->
  result (fst (store_get_profile_displayname hs localpart
                 (world (after_threepids hs user s)))) = Returned (Some name) ->
  while_attempts hs 5 user 0
    (after_profile_lookup hs localpart (after_threepids hs user s))
    = (Returned tok, s3) ->
  yield (send_renewal_email_to_user hs config self user expiration) s =
  dispatch hs config self
    (text_part_for config self name expiration tok)
    (html_part_for config self name expiration tok)
    (collect_email_addresses tps) s3.
Proof.
  intros Htps Hlp Hname Htok.
  rewrite send_renewal_email_to_user_run, Htps, lookup_display_name_run, Hlp.
  cbv zeta. rewrite Hname.
  fold (after_profile_lookup hs localpart (after_threepids hs user s)).
  rewrite Htok. reflexivity.
Qed.

(** An account identifier that [UserID.from_string] rejects is not
    recovered from: the exception it raises is not a [StoreError], so it
    ends [send_renewal_email_to_user] right after the threepid query,
    before any token is generated. *)
Theorem malformed_user_id_ends_processing (user : string) (expiration : Z)
    (s : St W) (tps : list threepid) (e : exn) :
  result (fst (store_user_get_threepids hs user (world s))) = Returned tps ->
  UserID_from_string_localpart hs user = Raised e ->
  isinstance_StoreError e = false ->
  yield (send_renewal_email_to_user hs config self user expiration) s
    = (Raised e, after_threepids hs user s).
Proof.
  intros Htps Hlp Hcls.
  rewrite send_renewal_email_to_user_run, Htps, lookup_display_name_run, Hlp, Hcls.
  reflexivity.
Qed.

End CycleShape.

(** The profile of "@u1:hs" holds the name "Alice". *)
Lemma display_name_from_profile_witness :
  let s := InMemory.start InMemory.two_accounts in
  let s2 := after_profile_lookup InMemory.hs "u1"
              (after_threepids InMemory.hs "@u1:hs" s) in
  let s3 := snd (while_attempts InMemory.hs 5 "@u1:hs" 0 s2) in
  yield (send_renewal_email_to_user InMemory.hs InMemory.config InMemory.self
           "@u1:hs" 1040) s =
  dispatch InMemory.hs InMemory.config InMemory.self
    (text_part_for InMemory.config InMemory.self "Alice" 1040 "fresh1")
    (html_part_for InMemory.config InMemory.self "Alice" 1040 "fresh1")
    ["a@example.com"; "b@example.com"] s3.
Proof.
  cbv zeta.
  refine (@display_name_from_profile _ InMemory.hs InMemory.config InMemory.self
            "@u1:hs" 1040 (InMemory.start InMemory.two_accounts)
            [{| medium := "email"; address := "a@example.com" |};
             {| medium := "msisdn"; address := "447700900000" |};
             {| medium := "email"; address := "b@example.com" |}]
            "u1" "Alice" "fresh1" _ _ _ _ _).
  - vm_compute. reflexivity.
  - vm_compute. reflexivity.
  - vm_compute. reflexivity.
  - vm_compute. reflexivity.
Defined.

(** "u1:hs" lacks the leading "@". *)
Lemma malformed_user_id_ends_processing_witness :
  let s := InMemory.start InMemory.two_accounts in
  yield (send_renewal_email_to_user InMemory.hs InMemory.config InMemory.self
           "u1:hs" 1040) s
  = (Raised (SynapseError 400 "Expected UserID string to start with '@'"),
     after_threepids InMemory.hs "u1:hs" s).
Proof.
  cbv zeta.
  refine (@malformed_user_id_ends_processing _ InMemory.hs InMemory.config
            InMemory.self "u1:hs" 1040 (InMemory.start InMemory.two_accounts)
            [] _ _ _ _).
  - vm_compute. reflexivity.
  - vm_compute. reflexivity.
  - reflexivity.
Defined.

(** ** Further runs of the in-memory deployment *)

(** The [%] operator with the mapping [{"app": "Matrix"}], as CPython 3
    evaluates it. *)
Example mod_app_runs :
  InMemory.mod_app "Renew your %(app)s account" "Matrix"
    = Returned "Renew your Matrix account" /\
  InMemory.mod_app "50%% off %(app)s" "Matrix" = Returned "50% off Matrix" /\
  InMemory.mod_app "%s <noreply@example.com>" "Matrix"
    = Returned "{'app': 'Matrix'} <noreply@example.com>" /\
  InMemory.mod_app "%(app)r" "Matrix" = Returned "'Matrix'" /\
  InMemory.mod_app "%(app)10s|" "Matrix" = Returned "    Matrix|" /\
  InMemory.mod_app "%(app)-10s|" "Matrix" = Returned "Matrix    |" /\
  InMemory.mod_app "%(app).3s" "Matrix" = Returned "Mat" /\
  InMemory.mod_app "%(server_name)s" "Matrix" = Raised InMemory.KeyError /\
  InMemory.mod_app "100% sure" "Matrix"
    = Returned "100{'app': 'Matrix'}ure" /\
  InMemory.mod_app "up to 100%" "Matrix" = Raised InMemory.ValueError /\
  InMemory.mod_app "%(app" "Matrix" = Raised InMemory.ValueError /\
  InMemory.mod_app "%(app)d" "Matrix" = Raised InMemory.TypeError /\
  InMemory.mod_app "%s and %s" "Matrix" = Raised InMemory.TypeError.
Proof. vm_compute. repeat split; reflexivity. Qed.

(** A store double that reports a collision on every token write:
    issuance fails with the exhaustion error on the 5th attempt. *)
Example issuance_against_always_conflict_store :
  let run :=
    yield (_get_renewal_token InMemory.hs_always_conflict "@u1:hs")
      (InMemory.start InMemory.two_accounts) in
  fst run = Raised exhausted /\
  generations (trace (snd run)) = 5%nat /\
  List.length (token_writes (trace (snd run))) = 5%nat.
Proof. vm_compute. repeat split; reflexivity. Qed.

(** Store errors that are caught inside the processing of a candidate do
    not end the cycle: with no profile rows and one token collision per
    account, four store calls fail with a [StoreError], the cycle
    completes, and both flags are set. *)
Example recovered_store_errors_do_not_end_cycle :
  let run :=
    send_renewal_emails InMemory.hs InMemory.config InMemory.self
      (InMemory.start InMemory.store_errors_recovered) in
  fst run = Returned (succeed tt) /\
  map ev_failure
    (filter (fun e => match ev_failure e with Some _ => true | None => false end)
       (trace (snd run)))
  = [Some InMemory.not_found; Some InMemory.conflict;
     Some InMemory.not_found; Some InMemory.conflict] /\
  mail_status_calls (trace (snd run)) = [("@u1:hs", true); ("@u2:hs", true)].
Proof. vm_compute. repeat split; reflexivity. Qed.
